(** * vox-noto: speech segmentation, content scoring and similarity

    A shallow embedding of the transcription hook ([useAudioTranscription]),
    of [analyzeContentQuality] (lib/content-analysis) and of
    [calculateStringSimilarity] (lib/text-utils), with the properties the
    specification states about them.

    Conventions of the embedding.
    - Strings are sequences of UTF-16 code units; the model covers the code
      units below 256 (Latin-1), one [ascii] per code unit.  On that range
      [toLowerCase], [trim], the class [\s] and the [/i] flag are the
      ECMAScript ones.
    - Numbers that the source computes in double precision (scores, weights,
      similarities, audio levels) are exact rationals [Q]; equalities between
      them are stated with [==].  Clock readings ([Date.now()]) and sizes are
      integers [Z].
    - The hook is event driven.  Every handler is a function from the state
      of the refs to the new state and the trace of calls it made; a handler
      that awaits an external capability is cut at the await, and the
      continuation is a handler of its own that receives the answer. *)

From Stdlib Require Import Ascii String.
From Stdlib Require Import List Permutation Bool Arith ZArith QArith Qminmax Lia.
Import ListNotations.

Set Implicit Arguments.

Open Scope nat_scope.

(** ** Strings *)

Module JsString.

Definition t := list ascii.

Definition str (s : string) : t := list_ascii_of_string s.

Definition code (c : ascii) : N := N_of_ascii c.

Definition in_range (lo hi : N) (c : ascii) : bool :=
  (lo <=? code c)%N && (code c <=? hi)%N.

(** WhiteSpace and LineTerminator below U+0100: TAB, LF, VT, FF, CR, SP, NBSP. *)
Definition isSpace (c : ascii) : bool :=
  in_range 9 13 c || (code c =? 32)%N || (code c =? 160)%N.

Definition isDigit (c : ascii) : bool := in_range 48 57 c.
Definition isUpperAZ (c : ascii) : bool := in_range 65 90 c.
Definition isLowerAZ (c : ascii) : bool := in_range 97 122 c.
(** [\w] *)
Definition isWord (c : ascii) : bool :=
  isUpperAZ c || isLowerAZ c || isDigit c || (code c =? 95)%N.

(** Code units with a lower-case mapping: A-Z and U+00C0..U+00DE but U+00D7. *)
Definition hasLower (c : ascii) : bool :=
  isUpperAZ c || (in_range 192 222 c && negb (code c =? 215)%N).

Definition lowerChar (c : ascii) : ascii :=
  if hasLower c then ascii_of_N (code c + 32) else c.

Definition toLowerCase (s : t) : t := map lowerChar s.

(** Code units with a single-unit upper-case mapping in the range:
    a-z and U+00E0..U+00FE but U+00F7. *)
Definition hasUpper (c : ascii) : bool :=
  isLowerAZ c || (in_range 224 254 c && negb (code c =? 247)%N).

(** [Canonicalize] of the [/i] flag (no [u] flag). *)
Definition canonicalize (c : ascii) : ascii :=
  if hasUpper c then ascii_of_N (code c - 32) else c.

Fixpoint trimStart (s : t) : t :=
  match s with
  | c :: s' => if isSpace c then trimStart s' else s
  | [] => []
  end.

Definition trimEnd (s : t) : t := rev (trimStart (rev s)).

Definition trim (s : t) : t := trimEnd (trimStart s).

Definition eqb (a b : t) : bool :=
  if list_eq_dec ascii_dec a b then true else false.

Fixpoint startsWith (p s : t) : bool :=
  match p, s with
  | [], _ => true
  | c :: p', d :: s' => Ascii.eqb c d && startsWith p' s'
  | _ :: _, [] => false
  end.

(** [s.includes(p)] *)
Fixpoint includes (p s : t) : bool :=
  startsWith p s ||
  match s with
  | [] => false
  | _ :: s' => includes p s'
  end.

(** [s.split(' ')]: the pieces between single separators, empty ones kept. *)
Fixpoint splitOn (sep : ascii -> bool) (s : t) : list t :=
  match s with
  | [] => [[]]
  | c :: s' =>
      if sep c then [] :: splitOn sep s'
      else match splitOn sep s' with
           | w :: ws => (c :: w) :: ws
           | [] => [[c]]
           end
  end.

Definition isBlank (c : ascii) : bool := (code c =? 32)%N.

Definition splitSpace (s : t) : list t := splitOn isBlank s.

(** [s.split(/\s+/)]: the pieces between maximal runs of white space; a run at
    either end leaves an empty piece there.  [inrun] tells that the previous
    code unit was white space. *)
Fixpoint splitRuns (inrun : bool) (s : t) : list t :=
  match s with
  | [] => [[]]
  | c :: s' =>
      if isSpace c then
        if inrun then splitRuns true s' else [] :: splitRuns true s'
      else match splitRuns false s' with
           | w :: ws => (c :: w) :: ws
           | [] => [[c]]
           end
  end.

Definition splitWs (s : t) : list t := splitRuns false s.

End JsString.

Import JsString.

(** ** Regular expressions

    A backtracking matcher over a cursor in the subject.  [run] returns the
    cursors a pattern can end at, in the order the ECMAScript matcher tries
    them (alternatives left to right, quantifiers greedy), so the head of the
    list is the match the engine reports. *)

Module Regex.

Inductive regex : Type :=
| Eps
| Cls (p : ascii -> bool)
| Seq (r1 r2 : regex)
| Alt (r1 r2 : regex)
| Star (r : regex)
| NotBehind (r : regex).

(** [before] holds the code units left of the cursor, nearest first. *)
Record cursor : Type := Cursor { before : JsString.t; after : JsString.t }.

Definition remaining (fwd : bool) (k : cursor) : nat :=
  if fwd then length (after k) else length (before k).

Definition advance (fwd : bool) (k : cursor) : option (ascii * cursor) :=
  if fwd then
    match after k with
    | c :: s => Some (c, Cursor (c :: before k) s)
    | [] => None
    end
  else
    match before k with
    | c :: s => Some (c, Cursor s (c :: after k))
    | [] => None
    end.

(** Iterations of a starred pattern; an iteration that consumes nothing is
    rejected, as in the ECMAScript semantics of [*]. *)
Fixpoint iterate (step : cursor -> list cursor) (fwd : bool) (fuel : nat)
                 (k : cursor) : list cursor :=
  match fuel with
  | O => [k]
  | S fuel' =>
      flat_map (fun k' =>
                  if remaining fwd k' <? remaining fwd k
                  then iterate step fwd fuel' k' else [])
               (step k) ++ [k]
  end.

Fixpoint run (r : regex) (fwd : bool) (k : cursor) : list cursor :=
  match r with
  | Eps => [k]
  | Cls p =>
      match advance fwd k with
      | Some (c, k') => if p c then [k'] else []
      | None => []
      end
  | Seq r1 r2 =>
      if fwd then flat_map (run r2 fwd) (run r1 fwd k)
      else flat_map (run r1 fwd) (run r2 fwd k)
  | Alt r1 r2 => run r1 fwd k ++ run r2 fwd k
  | Star r1 => iterate (run r1 fwd) fwd (S (remaining fwd k)) k
  | NotBehind r1 =>
      match run r1 false k with
      | [] => [k]
      | _ :: _ => []
      end
  end.

Definition Plus (r : regex) : regex := Seq r (Star r).
Definition Opt (r : regex) : regex := Alt r Eps.
Definition chr (c : ascii) : regex := Cls (Ascii.eqb c).
Definition chr_i (c : ascii) : regex :=
  Cls (fun x => Ascii.eqb (canonicalize x) (canonicalize c)).

Fixpoint lit (s : JsString.t) : regex :=
  match s with
  | [] => Eps
  | [c] => chr c
  | c :: s' => Seq (chr c) (lit s')
  end.

Fixpoint lit_i (s : JsString.t) : regex :=
  match s with
  | [] => Eps
  | [c] => chr_i c
  | c :: s' => Seq (chr_i c) (lit_i s')
  end.

(** [(?:w1|w2|...)] *)
Fixpoint oneOf (rs : list regex) : regex :=
  match rs with
  | [] => Cls (fun _ => false)
  | [r] => r
  | r :: rs' => Alt r (oneOf rs')
  end.

Definition words (ws : list string) : regex :=
  oneOf (map (fun w => lit (str w)) ws).
Definition words_i (ws : list string) : regex :=
  oneOf (map (fun w => lit_i (str w)) ws).

(** [re.test(s)]: a match starting at some index of [s]. *)
Fixpoint testFrom (r : regex) (pre s : JsString.t) : bool :=
  match run r true (Cursor pre s) with
  | _ :: _ => true
  | [] =>
      match s with
      | [] => false
      | c :: s' => testFrom r (c :: pre) s'
      end
  end.

Definition test (r : regex) (s : JsString.t) : bool := testFrom r [] s.

(** Number of elements of [s.match(re)] for a global [re] (0 for [null]):
    leftmost matches, each search resuming where the previous match ended,
    or one code unit further after an empty match. *)
Fixpoint countFrom (r : regex) (fuel : nat) (pre s : JsString.t) : nat :=
  match fuel with
  | O => O
  | S fuel' =>
      match run r true (Cursor pre s) with
      | k :: _ =>
          if length (after k) <? length s
          then S (countFrom r fuel' (before k) (after k))
          else match s with
               | [] => 1
               | c :: s' => S (countFrom r fuel' (c :: pre) s')
               end
      | [] =>
          match s with
          | [] => O
          | c :: s' => countFrom r fuel' (c :: pre) s'
          end
      end
  end.

Definition matchCount (r : regex) (s : JsString.t) : nat :=
  countFrom r (S (length s)) [] s.

End Regex.

Import Regex.

(** ** Content quality (lib/content-analysis) *)

Module ContentAnalysis.

Local Open Scope Q_scope.

(** The [reason] field is a template string; the model keeps the template and
    its arguments. *)
Inductive Reason : Type :=
| EmptyContent
| ContentTooShort
| ContentContains (names : list string)
| InsufficientDensity (score : Q)
| NoSignificantInformation
| MayContainUsefulInformation.

Record ContentQuality : Type := Quality {
  score : Q;
  isNoteworthy : bool;
  reason : Reason
}.

Record Indicator : Type := Ind {
  pattern : regex;
  weight : Q;
  name : string
}.

Definition space : regex := Cls isSpace.
Definition digit : regex := Cls isDigit.
Definition wordChar : regex := Cls isWord.

(** [/\d+(\.\d+)?(\s*%)?/] *)
Definition numbersPattern : regex :=
  Seq (Plus digit)
      (Seq (Opt (Seq (chr ".") (Plus digit)))
           (Opt (Seq (Star space) (chr "%")))).

(** [/(?<!\.\s+)[A-Z][a-z]+/] *)
Definition properNounsPattern : regex :=
  Seq (NotBehind (Seq (chr ".") (Plus space)))
      (Seq (Cls isUpperAZ) (Plus (Cls isLowerAZ))).

Definition factualPattern : regex :=
  Seq (words ["is"; "are"; "was"; "were"; "has"; "have"; "had"; "can";
              "could"; "should"; "would"; "will"]%string)
      (Plus space).

Definition technicalPattern : regex :=
  Seq (words ["algorithm"; "function"; "process"; "method"; "technique";
              "system"; "framework"; "api"; "interface"; "component";
              "module"; "database"; "server"; "client"; "user"; "data";
              "information"; "analysis"; "research"; "study"; "report";
              "result"; "finding"]%string)
      (Opt (chr "s")).

Definition comparisonsPattern : regex :=
  words ["more"; "less"; "better"; "worse"; "higher"; "lower"; "increase";
         "decrease"; "improve"; "reduce"; "enhance"; "diminish"]%string.

Definition timePattern : regex :=
  oneOf [ lit (str "today"); lit (str "yesterday"); lit (str "tomorrow");
          Seq (lit (str "last")) (Seq (Plus space) (Plus wordChar));
          Seq (lit (str "next")) (Seq (Plus space) (Plus wordChar));
          Seq (lit (str "in"))
              (Seq (Plus space)
                   (Seq (Plus digit) (Seq (Plus space) (Plus wordChar))));
          lit (str "during"); lit (str "after"); lit (str "before");
          lit (str "while"); lit (str "when") ].

Definition causalPattern : regex :=
  words ["because"; "since"; "as"; "therefore"; "thus"; "hence";
         "consequently"; "due to"; "results in"; "causes"; "affects";
         "influences"; "impacts"; "leads to"; "follows from"]%string.

Definition structuredPattern : regex :=
  words ["first"; "second"; "third"; "fourth"; "fifth"; "finally"; "lastly";
         "next"; "then"; "also"; "additionally"; "furthermore"; "moreover";
         "in addition"]%string.

Definition definitionsPattern : regex :=
  words ["means"; "refers to"; "is defined as"; "is a"; "are"; "represents";
         "signifies"; "denotes"; "indicates"; "suggests"]%string.

Definition namesPattern : regex :=
  words ["john"; "jane"; "bob"; "alice"; "david"; "sarah"; "michael";
         "james"; "robert"; "mary"; "william"; "elizabeth"; "richard";
         "joseph"; "thomas"; "charles"; "susan"; "jessica"; "daniel";
         "jennifer"]%string.

Definition workPattern : regex :=
  words ["meeting"; "call"; "conference"; "discussion"; "presentation";
         "project"; "deadline"; "task"; "goal"; "objective"; "plan";
         "strategy"; "team"; "group"; "department"; "manager"; "client";
         "customer"; "email"; "report"; "document"; "file"; "folder"]%string.

Definition locationsPattern : regex :=
  words ["office"; "room"; "building"; "street"; "avenue"; "road";
         "boulevard"; "city"; "town"; "state"; "country"; "region"; "area";
         "location"; "place"; "site"]%string.

Definition actionPattern : regex :=
  words ["create"; "build"; "develop"; "implement"; "design"; "make";
         "start"; "begin"; "finish"; "complete"; "deliver"; "send";
         "receive"; "update"; "change"; "modify"; "improve"; "fix";
         "solve"]%string.

Definition properNouns : Indicator :=
  Ind properNounsPattern (8 # 100) "proper nouns".

Definition numbers : Indicator := Ind numbersPattern (12 # 100) "numbers".

Definition otherIndicators : list Indicator :=
  [ Ind factualPattern (5 # 100) "factual statements";
    Ind technicalPattern (8 # 100) "technical terms";
    Ind comparisonsPattern (5 # 100) "comparisons";
    Ind timePattern (5 # 100) "time references";
    Ind causalPattern (8 # 100) "causal relationships";
    Ind structuredPattern (5 # 100) "structured information";
    Ind definitionsPattern (5 # 100) "definitions";
    Ind namesPattern (5 # 100) "names";
    Ind workPattern (5 # 100) "work terms";
    Ind locationsPattern (5 # 100) "locations";
    Ind actionPattern (5 # 100) "action verbs" ].

(** The table of the source, in its order. *)
Definition infoIndicators : list Indicator :=
  numbers :: properNouns :: otherIndicators.

(** The table with the capitalisation indicator taken out. *)
Definition indicatorsWithoutProperNouns : list Indicator :=
  numbers :: otherIndicators.

Definition fillerPhrases : list regex :=
  [ words ["um"; "uh"; "like"; "you know"; "i mean"; "sort of"; "kind of";
           "basically"; "actually"; "literally"; "honestly"; "to be honest";
           "i guess"; "i think"; "i believe"; "in my opinion"]%string;
    words ["so"; "well"; "right"; "okay"; "now"; "anyway"; "anyhow";
           "whatever"; "as i was saying"; "where was i"]%string ].

(** [/\?|(?:who|...)\s+(?:is|...)\s+(?:the|...)\s+/i] *)
Definition questionPattern : regex :=
  Alt (chr_i "?")
      (Seq (words_i ["who"; "what"; "when"; "where"; "why"; "how"]%string)
      (Seq (Plus space)
      (Seq (words_i ["is"; "are"; "was"; "were"; "will"; "would"; "could";
                     "should"; "do"; "does"; "did"; "can"; "could"]%string)
      (Seq (Plus space)
      (Seq (words_i ["the"; "a"; "an"; "it"; "they"; "we"; "you"; "i"]%string)
           (Plus space)))))).

(** The [forEach] over the indicators: every indicator whose pattern is found
    adds its weight once and its name to [foundIndicators]. *)
Fixpoint applyIndicators (inds : list Indicator) (text : JsString.t)
                         (acc : Q * list string) : Q * list string :=
  match inds with
  | [] => acc
  | i :: inds' =>
      applyIndicators inds' text
        (if test (pattern i) text
         then (fst acc + weight i, snd acc ++ [name i])
         else acc)
  end.

Definition countFillers (text : JsString.t) : nat :=
  fold_left (fun n phrase => (n + matchCount phrase text)%nat) fillerPhrases O.

Definition lengthAdjust (wordCount : nat) (s : Q) : Q :=
  if (5 <? wordCount)%nat && (wordCount <? 100)%nat then s + (5 # 100)
  else if (150 <? wordCount)%nat then s - (5 # 100)
  else s.

Definition questionAdjust (text : JsString.t) (s : Q) : Q :=
  if test questionPattern text then s - (2 # 100) else s.

(** [Math.max(0, Math.min(1, score))] *)
Definition clamp (s : Q) : Q := Qmax 0 (Qmin 1 s).

Definition threshold : Q := 15 # 100.

(** The score before it is clamped, for a text with at least three words. *)
Definition rawScore (inds : list Indicator) (normalizedText : JsString.t) : Q :=
  let wordCount := length (splitWs normalizedText) in
  let s := fst (applyIndicators inds normalizedText (15 # 100, [])) in
  let fillerDensity :=
    inject_Z (Z.of_nat (countFillers normalizedText)) /
    inject_Z (Z.of_nat wordCount) in
  let s := s - fillerDensity * (1 # 10) in
  let s := lengthAdjust wordCount s in
  questionAdjust normalizedText s.

Definition analyzeWith (inds : list Indicator) (text : JsString.t)
  : ContentQuality :=
  if JsString.eqb (trim text) [] then Quality 0 false EmptyContent
  else
    let normalizedText := trim (toLowerCase text) in
    let wordCount := length (splitWs normalizedText) in
    if (wordCount <? 3)%nat then Quality (1 # 10) false ContentTooShort
    else
      let foundIndicators :=
        snd (applyIndicators inds normalizedText (15 # 100, [])) in
      let s := clamp (rawScore inds normalizedText) in
      let noteworthy := Qle_bool threshold s in
      Quality s noteworthy
        (if noteworthy then ContentContains foundIndicators
         else match foundIndicators with
              | _ :: _ => InsufficientDensity s
              | [] => NoSignificantInformation
              end).

Definition analyzeContentQuality (text : JsString.t) : ContentQuality :=
  analyzeWith infoIndicators text.

End ContentAnalysis.

Import ContentAnalysis.

(** ** Similarity measures *)

Module Similarity.

Local Open Scope Q_scope.

Definition ratio (n d : nat) : Q :=
  inject_Z (Z.of_nat n) / inject_Z (Z.of_nat d).

(** [words2.includes(word)] *)
Definition includesWord (ws : list JsString.t) (w : JsString.t) : bool :=
  existsb (JsString.eqb w) ws.

(** The loop [for (const word of words1) if (words2.includes(word)) matchCount++]. *)
Fixpoint countMatching (words1 words2 : list JsString.t) : nat :=
  match words1 with
  | [] => O
  | w :: words1' =>
      if includesWord words2 w
      then S (countMatching words1' words2)
      else countMatching words1' words2
  end.

(** [calculateSimpleStringSimilarity] of the hook. *)
Definition calculateSimpleStringSimilarity (str1 str2 : JsString.t) : Q :=
  let s1 := toLowerCase str1 in
  let s2 := toLowerCase str2 in
  if JsString.eqb s1 s2 then 1
  else if (length s1 =? 0)%nat || (length s2 =? 0)%nat then 0
  else
    let words1 := splitWs s1 in
    let words2 := splitWs s2 in
    ratio (countMatching words1 words2)
          (Nat.max (length words1) (length words2)).

(** [Math.min(x, y, z)] *)
Definition min3 (x y z : nat) : nat := Nat.min (Nat.min x y) z.

(** Cells 1.. of row [i] of the distance matrix, from row [i-1] ([prev], from
    the cell diagonally above on) and the cell to the left. *)
Fixpoint fillRow (ai : ascii) (b : JsString.t) (prev : list nat) (left : nat)
  : list nat :=
  match b, prev with
  | bj :: b', diag :: ((up :: _) as prev') =>
      let cost := if Ascii.eqb ai bj then 0%nat else 1%nat in
      let cell := min3 (up + 1) (left + 1) (diag + cost) in
      cell :: fillRow ai b' prev' cell
  | _, _ => []
  end.

(** Row [i] of the matrix: [matrix[i][0] = i], then the inner loop over [j]. *)
Definition nextRow (i : nat) (ai : ascii) (b : JsString.t) (prev : list nat)
  : list nat :=
  i :: fillRow ai b prev i.

(** The outer loop over [i], from row [i] on; the result is the last row. *)
Fixpoint fillRows (a b : JsString.t) (i : nat) (row : list nat) : list nat :=
  match a with
  | [] => row
  | ai :: a' => fillRows a' b (S i) (nextRow (S i) ai b row)
  end.

(** [matrix[a.length][b.length]]; row 0 is [matrix[0][j] = j]. *)
Definition levenshtein (a b : JsString.t) : nat :=
  last (fillRows a b 0 (seq 0 (S (length b)))) 0%nat.

Definition normalizedSimilarity (a b : JsString.t) : Q :=
  let maxLength := Nat.max (length a) (length b) in
  if (maxLength =? 0)%nat then 1
  else 1 - ratio (levenshtein a b) maxLength.

(** [calculateStringSimilarity] of lib/text-utils. *)
Definition calculateStringSimilarity (str1 str2 : JsString.t) : Q :=
  if JsString.eqb str1 str2 then 1
  else if (length str1 =? 0)%nat || (length str2 =? 0)%nat then 0
  else normalizedSimilarity (trim (toLowerCase str1)) (trim (toLowerCase str2)).

(** [isSimilarToExisting], with its threshold. *)
Definition isSimilarToExisting (text : JsString.t) (existingTexts : list JsString.t)
                               (threshold : Q) : bool :=
  if JsString.eqb (trim text) [] then false
  else existsb (fun existingText =>
                  Qle_bool threshold (calculateStringSimilarity text existingText))
               existingTexts.

(** Row [i] of the matrix of a string of length [n] against itself: the
    distances [|i - j|] for [j] from 0 to [n]. *)
Definition absdiff (i j : nat) : nat := (i - j) + (j - i).

Definition diagonalRow (n i : nat) : list nat := map (absdiff i) (seq 0 (S n)).

End Similarity.

Import Similarity.

(** ** The transcription hook (useAudioTranscription) *)

Module Hook.

Local Open Scope Z_scope.

Inductive RecorderState : Type := Inactive | Recording.

(** The refs and the React state of the hook.  A ref that holds a platform
    object is [true] (or [Some]) when it is not [null]; [audioChunks] holds the
    sizes of the recorded blobs. *)
Record Hook : Type := MkHook {
  transcription : JsString.t;
  summary : JsString.t;
  isProcessing : bool;
  audioLevel : Q;
  contentQuality : option ContentQuality;
  mediaRecorder : option RecorderState;
  audioChunks : list Z;
  processingTimeout : bool;
  audioContext : bool;
  accumulatedTranscription : JsString.t;
  silenceStartTime : option Z;
  lastProcessingTime : Z;
  stream : bool;
  analyser : bool;
  audioLevelHistory : list Q;
  animationFrame : bool;
  processedSummaries : list JsString.t;
  filteredContentCount : nat;
  transcriptionErrorCount : nat
}.

Definition set_transcription (v : JsString.t) (h : Hook) : Hook :=
  MkHook v (summary h) (isProcessing h) (audioLevel h) (contentQuality h)
    (mediaRecorder h) (audioChunks h) (processingTimeout h) (audioContext h)
    (accumulatedTranscription h) (silenceStartTime h) (lastProcessingTime h)
    (stream h) (analyser h) (audioLevelHistory h) (animationFrame h)
    (processedSummaries h) (filteredContentCount h)
    (transcriptionErrorCount h).

Definition set_summary (v : JsString.t) (h : Hook) : Hook :=
  MkHook (transcription h) v (isProcessing h) (audioLevel h)
    (contentQuality h) (mediaRecorder h) (audioChunks h) (processingTimeout h)
    (audioContext h) (accumulatedTranscription h) (silenceStartTime h)
    (lastProcessingTime h) (stream h) (analyser h) (audioLevelHistory h)
    (animationFrame h) (processedSummaries h) (filteredContentCount h)
    (transcriptionErrorCount h).

Definition set_isProcessing (v : bool) (h : Hook) : Hook :=
  MkHook (transcription h) (summary h) v (audioLevel h) (contentQuality h)
    (mediaRecorder h) (audioChunks h) (processingTimeout h) (audioContext h)
    (accumulatedTranscription h) (silenceStartTime h) (lastProcessingTime h)
    (stream h) (analyser h) (audioLevelHistory h) (animationFrame h)
    (processedSummaries h) (filteredContentCount h)
    (transcriptionErrorCount h).

Definition set_audioLevel (v : Q) (h : Hook) : Hook :=
  MkHook (transcription h) (summary h) (isProcessing h) v (contentQuality h)
    (mediaRecorder h) (audioChunks h) (processingTimeout h) (audioContext h)
    (accumulatedTranscription h) (silenceStartTime h) (lastProcessingTime h)
    (stream h) (analyser h) (audioLevelHistory h) (animationFrame h)
    (processedSummaries h) (filteredContentCount h)
    (transcriptionErrorCount h).

Definition set_contentQuality (v : option ContentQuality) (h : Hook) : Hook :=
  MkHook (transcription h) (summary h) (isProcessing h) (audioLevel h) v
    (mediaRecorder h) (audioChunks h) (processingTimeout h) (audioContext h)
    (accumulatedTranscription h) (silenceStartTime h) (lastProcessingTime h)
    (stream h) (analyser h) (audioLevelHistory h) (animationFrame h)
    (processedSummaries h) (filteredContentCount h)
    (transcriptionErrorCount h).

Definition set_mediaRecorder (v : option RecorderState) (h : Hook) : Hook :=
  MkHook (transcription h) (summary h) (isProcessing h) (audioLevel h)
    (contentQuality h) v (audioChunks h) (processingTimeout h)
    (audioContext h) (accumulatedTranscription h) (silenceStartTime h)
    (lastProcessingTime h) (stream h) (analyser h) (audioLevelHistory h)
    (animationFrame h) (processedSummaries h) (filteredContentCount h)
    (transcriptionErrorCount h).

Definition set_audioChunks (v : list Z) (h : Hook) : Hook :=
  MkHook (transcription h) (summary h) (isProcessing h) (audioLevel h)
    (contentQuality h) (mediaRecorder h) v (processingTimeout h)
    (audioContext h) (accumulatedTranscription h) (silenceStartTime h)
    (lastProcessingTime h) (stream h) (analyser h) (audioLevelHistory h)
    (animationFrame h) (processedSummaries h) (filteredContentCount h)
    (transcriptionErrorCount h).

Definition set_processingTimeout (v : bool) (h : Hook) : Hook :=
  MkHook (transcription h) (summary h) (isProcessing h) (audioLevel h)
    (contentQuality h) (mediaRecorder h) (audioChunks h) v (audioContext h)
    (accumulatedTranscription h) (silenceStartTime h) (lastProcessingTime h)
    (stream h) (analyser h) (audioLevelHistory h) (animationFrame h)
    (processedSummaries h) (filteredContentCount h)
    (transcriptionErrorCount h).

Definition set_audioContext (v : bool) (h : Hook) : Hook :=
  MkHook (transcription h) (summary h) (isProcessing h) (audioLevel h)
    (contentQuality h) (mediaRecorder h) (audioChunks h) (processingTimeout h)
    v (accumulatedTranscription h) (silenceStartTime h) (lastProcessingTime h)
    (stream h) (analyser h) (audioLevelHistory h) (animationFrame h)
    (processedSummaries h) (filteredContentCount h)
    (transcriptionErrorCount h).

Definition set_accumulatedTranscription (v : JsString.t) (h : Hook) : Hook :=
  MkHook (transcription h) (summary h) (isProcessing h) (audioLevel h)
    (contentQuality h) (mediaRecorder h) (audioChunks h) (processingTimeout h)
    (audioContext h) v (silenceStartTime h) (lastProcessingTime h) (stream h)
    (analyser h) (audioLevelHistory h) (animationFrame h)
    (processedSummaries h) (filteredContentCount h)
    (transcriptionErrorCount h).

Definition set_silenceStartTime (v : option Z) (h : Hook) : Hook :=
  MkHook (transcription h) (summary h) (isProcessing h) (audioLevel h)
    (contentQuality h) (mediaRecorder h) (audioChunks h) (processingTimeout h)
    (audioContext h) (accumulatedTranscription h) v (lastProcessingTime h)
    (stream h) (analyser h) (audioLevelHistory h) (animationFrame h)
    (processedSummaries h) (filteredContentCount h)
    (transcriptionErrorCount h).

Definition set_lastProcessingTime (v : Z) (h : Hook) : Hook :=
  MkHook (transcription h) (summary h) (isProcessing h) (audioLevel h)
    (contentQuality h) (mediaRecorder h) (audioChunks h) (processingTimeout h)
    (audioContext h) (accumulatedTranscription h) (silenceStartTime h) v
    (stream h) (analyser h) (audioLevelHistory h) (animationFrame h)
    (processedSummaries h) (filteredContentCount h)
    (transcriptionErrorCount h).

Definition set_stream (v : bool) (h : Hook) : Hook :=
  MkHook (transcription h) (summary h) (isProcessing h) (audioLevel h)
    (contentQuality h) (mediaRecorder h) (audioChunks h) (processingTimeout h)
    (audioContext h) (accumulatedTranscription h) (silenceStartTime h)
    (lastProcessingTime h) v (analyser h) (audioLevelHistory h)
    (animationFrame h) (processedSummaries h) (filteredContentCount h)
    (transcriptionErrorCount h).

Definition set_analyser (v : bool) (h : Hook) : Hook :=
  MkHook (transcription h) (summary h) (isProcessing h) (audioLevel h)
    (contentQuality h) (mediaRecorder h) (audioChunks h) (processingTimeout h)
    (audioContext h) (accumulatedTranscription h) (silenceStartTime h)
    (lastProcessingTime h) (stream h) v (audioLevelHistory h)
    (animationFrame h) (processedSummaries h) (filteredContentCount h)
    (transcriptionErrorCount h).

Definition set_audioLevelHistory (v : list Q) (h : Hook) : Hook :=
  MkHook (transcription h) (summary h) (isProcessing h) (audioLevel h)
    (contentQuality h) (mediaRecorder h) (audioChunks h) (processingTimeout h)
    (audioContext h) (accumulatedTranscription h) (silenceStartTime h)
    (lastProcessingTime h) (stream h) (analyser h) v (animationFrame h)
    (processedSummaries h) (filteredContentCount h)
    (transcriptionErrorCount h).

Definition set_animationFrame (v : bool) (h : Hook) : Hook :=
  MkHook (transcription h) (summary h) (isProcessing h) (audioLevel h)
    (contentQuality h) (mediaRecorder h) (audioChunks h) (processingTimeout h)
    (audioContext h) (accumulatedTranscription h) (silenceStartTime h)
    (lastProcessingTime h) (stream h) (analyser h) (audioLevelHistory h) v
    (processedSummaries h) (filteredContentCount h)
    (transcriptionErrorCount h).

Definition set_processedSummaries (v : list JsString.t) (h : Hook) : Hook :=
  MkHook (transcription h) (summary h) (isProcessing h) (audioLevel h)
    (contentQuality h) (mediaRecorder h) (audioChunks h) (processingTimeout h)
    (audioContext h) (accumulatedTranscription h) (silenceStartTime h)
    (lastProcessingTime h) (stream h) (analyser h) (audioLevelHistory h)
    (animationFrame h) v (filteredContentCount h) (transcriptionErrorCount h).

Definition set_filteredContentCount (v : nat) (h : Hook) : Hook :=
  MkHook (transcription h) (summary h) (isProcessing h) (audioLevel h)
    (contentQuality h) (mediaRecorder h) (audioChunks h) (processingTimeout h)
    (audioContext h) (accumulatedTranscription h) (silenceStartTime h)
    (lastProcessingTime h) (stream h) (analyser h) (audioLevelHistory h)
    (animationFrame h) (processedSummaries h) v (transcriptionErrorCount h).

Definition set_transcriptionErrorCount (v : nat) (h : Hook) : Hook :=
  MkHook (transcription h) (summary h) (isProcessing h) (audioLevel h)
    (contentQuality h) (mediaRecorder h) (audioChunks h) (processingTimeout h)
    (audioContext h) (accumulatedTranscription h) (silenceStartTime h)
    (lastProcessingTime h) (stream h) (analyser h) (audioLevelHistory h)
    (animationFrame h) (processedSummaries h) (filteredContentCount h) v.

(** Calls that leave the hook: the scorer, the two awaited capabilities and
    the platform recorder. *)
Inductive Call : Type :=
| AnalyzeContent (text : JsString.t)
| GenerateText (text : JsString.t)
| Transcribe (size : Z)
| RecorderStart
| RecorderStop
| RecorderCreate.

Definition pauseDetectionThreshold : Z := 400.
Definition minSilenceLevel : Q := 2 # 100.
Definition minContentLength : nat := 3.
Definition maxContentLength : nat := 150.
Definition minTimeBetweenNotes : Z := 800.
Definition audioLevelHistorySize : nat := 20.
Definition maxTranscriptionErrors : nat := 3.
Definition minBlobSize : Z := 800.
Definition staleAfter : Z := 3000.
Definition overrideScore : Q := 1 # 10.
Definition duplicateSimilarity : Q := 85 # 100.

Definition fallbackMessage : JsString.t :=
  str "Speech detected but transcription unavailable.".
Definition noNoteworthyContent : JsString.t := str "NO_NOTEWORTHY_CONTENT".

Definition Qlt_bool (x y : Q) : bool := negb (Qle_bool y x).

Definition isEmpty (s : JsString.t) : bool :=
  match s with [] => true | _ :: _ => false end.

Definition isNone {A : Type} (o : option A) : bool :=
  match o with None => true | Some _ => false end.

(** [Set.prototype.add] on the insertion-ordered set of summaries. *)
Definition addSummary (x : JsString.t) (xs : list JsString.t) : list JsString.t :=
  if existsb (JsString.eqb x) xs then xs else xs ++ [x].

(** *** generateTopicalNote

    Up to [await generateText]: [true] when the call was issued, [false] when
    the function returned the empty note before it.  The object handed to
    [setContentQuality] is the one the override then mutates, so the state
    holds the overridden analysis. *)
Definition generateTopicalNote_begin (text : JsString.t) (h : Hook)
  : Hook * list Call * bool :=
  if isEmpty text || isEmpty (trim text) then (h, [], false)
  else
    let analysis := analyzeContentQuality text in
    let analysis :=
      if negb (isNoteworthy analysis) && Qle_bool overrideScore (score analysis)
      then Quality (score analysis) true MayContainUsefulInformation
      else analysis in
    let h := set_contentQuality (Some analysis) h in
    if negb (isNoteworthy analysis) then
      (set_filteredContentCount (S (filteredContentCount h)) h,
       [AnalyzeContent text], false)
    else (h, [AnalyzeContent text; GenerateText text], true).

(** After the await: [answer] is the generated text, [None] when the call
    threw.  Returns the note. *)
Definition generateTopicalNote_resume (answer : option JsString.t) (h : Hook)
  : Hook * JsString.t :=
  match answer with
  | None => (h, [])
  | Some summaryText =>
      if includes noNoteworthyContent summaryText then
        (set_filteredContentCount (S (filteredContentCount h)) h, [])
      else if existsb
                (fun existingSummary =>
                   Qlt_bool duplicateSimilarity
                     (calculateSimpleStringSimilarity (trim summaryText)
                                                      existingSummary))
                (processedSummaries h)
      then (h, [])
      else (set_processedSummaries
              (addSummary (trim summaryText) (processedSummaries h)) h,
            summaryText)
  end.

(** *** processAccumulatedContent *)

Definition wordCountOf (s : JsString.t) : nat := length (splitSpace s).

(** The end of the [try] block and the [finally], once the note is known. *)
Definition processAccumulatedContent_finish (topicalNote : JsString.t) (now : Z)
                                            (h : Hook) : Hook :=
  let h := if isEmpty topicalNote then h
           else set_lastProcessingTime now (set_summary topicalNote h) in
  set_isProcessing false (set_accumulatedTranscription [] h).

(** Up to the await inside [generateTopicalNote].  When no call is awaited the
    note is empty and the function runs to its end. *)
Definition processAccumulatedContent_begin (h : Hook) : Hook * list Call * bool :=
  let content := trim (accumulatedTranscription h) in
  if negb (isEmpty content) && (minContentLength <=? wordCountOf content)%nat
  then
    let h := set_transcription content (set_isProcessing true h) in
    match generateTopicalNote_begin content h with
    | (h, calls, true) => (h, calls, true)
    | (h, calls, false) =>
        (set_isProcessing false (set_accumulatedTranscription [] h), calls, false)
    end
  else (h, [], false).

Definition processAccumulatedContent_resume (answer : option JsString.t) (now : Z)
                                            (h : Hook) : Hook :=
  let '(h, topicalNote) := generateTopicalNote_resume answer h in
  processAccumulatedContent_finish topicalNote now h.

(** A call whose promise is not awaited. *)
Definition processAccumulatedContent (h : Hook) : Hook * list Call :=
  fst (processAccumulatedContent_begin h).

(** *** checkForSpeechPause *)

(** [history.slice(-n)] *)
Definition lastN (n : nat) (l : list Q) : list Q := skipn (length l - n) l.

Definition isCurrentlySilent (h : Hook) : bool :=
  forallb (fun level => Qlt_bool level minSilenceLevel)
          (lastN 5 (audioLevelHistory h)).

Definition checkForSpeechPause (now : Z) (h : Hook) : Hook * list Call :=
  let timeSinceLastProcessing := now - lastProcessingTime h in
  let wordCount := wordCountOf (accumulatedTranscription h) in
  if (maxContentLength <=? wordCount)%nat &&
     (minTimeBetweenNotes <? timeSinceLastProcessing)
  then processAccumulatedContent h
  else if (length (audioLevelHistory h) <? 5)%nat then (h, [])
  else if isCurrentlySilent h then
    match silenceStartTime h with
    | None => (set_silenceStartTime (Some now) h, [])
    | Some silenceStart =>
        if pauseDetectionThreshold <=? now - silenceStart then
          if (minContentLength <=? wordCount)%nat &&
             (minTimeBetweenNotes <? timeSinceLastProcessing)
          then processAccumulatedContent h
          else (h, [])
        else (h, [])
    end
  else (set_silenceStartTime None h, []).

(** *** sampleAudioLevel, one animation frame; [average] is the level read
    from the analyser. *)
Definition sampleAudioLevel (average : Q) (now : Z) (h : Hook) : Hook * list Call :=
  if negb (analyser h) || isNone (mediaRecorder h)
  then (set_animationFrame false h, [])
  else
    let h := set_audioLevel average h in
    let history := audioLevelHistory h ++ [average] in
    let history :=
      if (audioLevelHistorySize <? length history)%nat then tl history
      else history in
    let '(h, calls) := checkForSpeechPause now (set_audioLevelHistory history h) in
    (set_animationFrame true h, calls).

(** *** The recorder *)

(** [createAndStartMediaRecorder]: a recorder found recording is stopped (its
    [onstop] comes later, as an event), then a new one is created and started. *)
Definition createAndStartMediaRecorder (h : Hook) : Hook * list Call :=
  let stopped :=
    match mediaRecorder h with
    | Some Recording => [RecorderStop]
    | _ => []
    end in
  (set_audioChunks [] (set_mediaRecorder (Some Recording) h),
   stopped ++ [RecorderCreate; RecorderStart]).

(** The block "restart recording if still active"; [start] throws on a
    recorder that is not inactive, and the handler then re-creates it. *)
Definition restartRecording (h : Hook) : Hook * list Call :=
  if stream h then
    match mediaRecorder h with
    | None => (h, [])
    | Some Inactive =>
        (set_mediaRecorder (Some Recording) (set_audioChunks [] h),
         [RecorderStart])
    | Some Recording =>
        let '(h, calls) := createAndStartMediaRecorder (set_audioChunks [] h) in
        (h, RecorderStart :: calls)
    end
  else (h, []).

(** *** handleTranscriptionError *)
Definition handleTranscriptionError (h : Hook) : Hook * list Call :=
  let h := set_transcriptionErrorCount (S (transcriptionErrorCount h)) h in
  if (maxTranscriptionErrors <=? transcriptionErrorCount h)%nat then
    if negb (includes fallbackMessage (accumulatedTranscription h)) then
      processAccumulatedContent
        (set_accumulatedTranscription
           (accumulatedTranscription h ++ str " " ++ fallbackMessage) h)
    else (h, [])
  else (h, []).

(** *** processAudioChunks *)

Definition blobSize (chunks : list Z) : Z := fold_right Z.add 0 chunks.

(** Up to [await transcribe]: [true] when the blob was submitted.  The early
    [return] of the small-blob branch sits inside the [try], so its restart is
    followed by the one of the [finally] block. *)
Definition processAudioChunks_begin (h : Hook) : Hook * list Call * bool :=
  match audioChunks h with
  | [] =>
      let '(h, calls) := restartRecording (set_isProcessing false h) in
      (h, calls, false)
  | _ :: _ =>
      let h := set_isProcessing true h in
      let size := blobSize (audioChunks h) in
      if size <? minBlobSize then
        let '(h, calls1) := restartRecording (set_isProcessing false h) in
        let '(h, calls2) := restartRecording (set_isProcessing false h) in
        (h, calls1 ++ calls2, false)
      else (h, [Transcribe size], true)
  end.

(** What [await transcribe] gives: the text of the result (empty when there is
    none), or an exception. *)
Inductive Transcription : Type :=
| TranscribeReturns (text : JsString.t)
| TranscribeThrows.

(** After the await: the rest of the inner [try] and its [catch]. *)
Definition transcriptionSettled (result : Transcription) (now : Z) (h : Hook)
  : Hook * list Call :=
  match result with
  | TranscribeThrows => handleTranscriptionError h
  | TranscribeReturns text =>
      let h := set_transcriptionErrorCount O h in
      if negb (isEmpty text) then
        let h := set_accumulatedTranscription
                   (accumulatedTranscription h ++ str " " ++ text) h in
        if (staleAfter <? now - lastProcessingTime h) &&
           (0 <? length (trim (accumulatedTranscription h)))%nat
        then processAccumulatedContent h
        else (h, [])
      else handleTranscriptionError h
  end.

(** The continuation of [processAudioChunks], with the [finally] block. *)
Definition processAudioChunks_resume (result : Transcription) (now : Z) (h : Hook)
  : Hook * list Call :=
  let '(h, calls1) := transcriptionSettled result now h in
  let '(h, calls2) := restartRecording (set_isProcessing false h) in
  (h, calls1 ++ calls2).

(** *** startRecording and stopRecording

    [granted]: [getUserMedia] gave a stream; [monitoring]: the audio context
    could be set up. *)
Definition resetSession (now : Z) (h : Hook) : Hook :=
  set_audioLevel 0%Q
    (set_contentQuality None
       (set_transcriptionErrorCount O
          (set_filteredContentCount O
             (set_processedSummaries []
                (set_audioLevelHistory []
                   (set_silenceStartTime None
                      (set_lastProcessingTime now
                         (set_accumulatedTranscription [] h)))))))).

Definition setupAudioLevelMonitoring (h : Hook) : Hook :=
  set_animationFrame true
    (set_audioLevelHistory (repeat 0%Q audioLevelHistorySize)
       (set_analyser true h)).

Definition startRecording (granted monitoring : bool) (now : Z) (h : Hook)
  : Hook * list Call :=
  let h := resetSession now h in
  if granted then
    let h := set_stream true h in
    let h := if monitoring
             then setupAudioLevelMonitoring (set_audioContext true h)
             else h in
    let '(h, calls) := createAndStartMediaRecorder h in
    (set_processingTimeout true h, calls)
  else (set_isProcessing false h, []).

(** The teardown of [stopRecording], before the remaining content is looked at. *)
Definition releaseSession (h : Hook) : Hook * list Call :=
  let h := set_processingTimeout false (set_animationFrame false h) in
  let calls :=
    match mediaRecorder h with
    | Some Recording => [RecorderStop]
    | _ => []
    end in
  (set_audioContext false (set_stream false (set_mediaRecorder None h)), calls).

(** Up to the await of [processAccumulatedContent]; [true] when a generated
    note is awaited, and the level is then reset by the continuation. *)
Definition stopRecording_begin (h : Hook) : Hook * list Call * bool :=
  let '(h, calls1) := releaseSession h in
  if negb (isEmpty (trim (accumulatedTranscription h))) then
    match processAccumulatedContent_begin h with
    | (h, calls2, true) => (h, calls1 ++ calls2, true)
    | (h, calls2, false) => (set_audioLevel 0%Q h, calls1 ++ calls2, false)
    end
  else (set_audioLevel 0%Q h, calls1, false).

Definition stopRecording (h : Hook) : Hook * list Call :=
  fst (stopRecording_begin h).

(** *** Events

    What the platform delivers to the hook, one handler run per event.  The
    answers of the awaited capabilities ([Transcribed], [NoteGenerated]) and
    [RecorderStopped] are accepted in every state, so the runs of the hook
    are among the runs of [runEvents]. *)
Inductive Event : Type :=
| Start (granted monitoring : bool) (now : Z)
| Stop
| Frame (average : Q) (now : Z)
| Interval
| DataAvailable (size : Z)
| RecorderStopped
| Transcribed (result : Transcription) (now : Z)
| NoteGenerated (onStop : bool) (answer : option JsString.t) (now : Z).

(** The 3 s interval: a recording recorder is stopped. *)
Definition onInterval (h : Hook) : Hook * list Call :=
  if processingTimeout h then
    match mediaRecorder h with
    | Some Recording => (set_mediaRecorder (Some Inactive) h, [RecorderStop])
    | _ => (h, [])
    end
  else (h, []).

(** [ondataavailable] *)
Definition onDataAvailable (size : Z) (h : Hook) : Hook :=
  if 0 <? size then set_audioChunks (audioChunks h ++ [size]) h else h.

Definition step (h : Hook) (e : Event) : Hook * list Call :=
  match e with
  | Start granted monitoring now => startRecording granted monitoring now h
  | Stop => stopRecording h
  | Frame average now => sampleAudioLevel average now h
  | Interval => onInterval h
  | DataAvailable size => (onDataAvailable size h, [])
  | RecorderStopped => fst (processAudioChunks_begin h)
  | Transcribed result now => processAudioChunks_resume result now h
  | NoteGenerated onStop answer now =>
      let h := processAccumulatedContent_resume answer now h in
      (if onStop then set_audioLevel 0%Q h else h, [])
  end.

(** A run of the hook: the final state and all the calls, in order. *)
Fixpoint runEvents (h : Hook) (es : list Event) : Hook * list Call :=
  match es with
  | [] => (h, [])
  | e :: es' =>
      let '(h1, calls1) := step h e in
      let '(h2, calls2) := runEvents h1 es' in
      (h2, calls1 ++ calls2)
  end.

(** The texts handed to the scorer. *)
Fixpoint scored (calls : list Call) : list JsString.t :=
  match calls with
  | [] => []
  | AnalyzeContent text :: calls' => text :: scored calls'
  | _ :: calls' => scored calls'
  end.

Definition transcribes (c : Call) : bool :=
  match c with Transcribe _ => true | _ => false end.

(** The condition under which [processAccumulatedContent] goes on. *)
Definition gate (h : Hook) : bool :=
  negb (isEmpty (trim (accumulatedTranscription h))) &&
  (minContentLength <=? wordCountOf (trim (accumulatedTranscription h)))%nat.

(** Not empty and not blank. *)
Definition nonBlank (text : JsString.t) : Prop := text <> [] /\ trim text <> [].

Definition initial : Hook :=
  MkHook [] [] false 0%Q None None [] false false [] None 0 false false [] false
         [] O O.

End Hook.

(** ** The edit distance, recursively

    The distance the matrix of [calculateStringSimilarity] tabulates, by
    recursion on the two strings: delete, insert or substitute the first code
    unit. *)

Module EditDistance.

Fixpoint levRec (a : JsString.t) : JsString.t -> nat :=
  match a with
  | [] => fun b => length b
  | x :: a' =>
      fix inner (b : JsString.t) : nat :=
        match b with
        | [] => S (length a')
        | y :: b' =>
            min3 (levRec a' b + 1) (inner b' + 1)
                 (levRec a' b' + (if Ascii.eqb x y then 0 else 1))
        end
  end.

(** The prefixes of [bs], each reversed and put in front of [rb], shortest
    first. *)
Fixpoint reversedPrefixes (rb bs : JsString.t) : list JsString.t :=
  rb :: match bs with
        | [] => []
        | y :: bs' => reversedPrefixes (y :: rb) bs'
        end.

End EditDistance.

Import EditDistance.

(** ** The recorder's MIME type (getSupportedMimeType of the hook)

    [isTypeSupported] stands for [MediaRecorder.isTypeSupported]. *)

Module MimeType.

Definition types : list JsString.t :=
  [ str "audio/webm"; str "audio/webm;codecs=opus"; str "audio/ogg;codecs=opus";
    str "audio/mp4"; str "audio/mpeg"; [] ].

(** The loop over the candidates; the empty string after it. *)
Fixpoint firstSupported (isTypeSupported : JsString.t -> bool)
                        (candidates : list JsString.t) : JsString.t :=
  match candidates with
  | [] => []
  | type :: rest =>
      if Hook.isEmpty type || isTypeSupported type then type
      else firstSupported isTypeSupported rest
  end.

Definition getSupportedMimeType (isTypeSupported : JsString.t -> bool)
  : JsString.t :=
  firstSupported isTypeSupported types.

End MimeType.

(** ** The canvas (components/canvas)

    The notes, the refs of the duplicate checks and the zoom level.  What the
    component draws at random or takes from the platform (the id, the
    position, the colour, the date) is an argument. *)

Module Canvas.

Local Open Scope Z_scope.

Record Note : Type := MkNote {
  id : JsString.t;
  content : JsString.t;
  rawTranscription : JsString.t;
  position : Q * Q;
  color : JsString.t;
  createdAt : JsString.t
}.

Record Board : Type := MkBoard {
  notes : list Note;
  selectedNote : option JsString.t;
  lastSummary : JsString.t;
  lastTranscription : JsString.t;
  lastNoteTime : Z;
  processedContents : list JsString.t
}.

Definition similarityThreshold : Q := 8 # 10.
Definition minTimeBetweenNotes : Z := 1500.

(** [Set.prototype.has], [add] and [delete] on [processedContentsRef]. *)
Definition has (xs : list JsString.t) (x : JsString.t) : bool :=
  existsb (JsString.eqb x) xs.

Definition add (x : JsString.t) (xs : list JsString.t) : list JsString.t :=
  if has xs x then xs else xs ++ [x].

Definition delete (x : JsString.t) (xs : list JsString.t) : list JsString.t :=
  filter (fun y => negb (JsString.eqb x y)) xs.

(** The three checks of the effect that turns a summary into a note. *)
Definition accepts (summary : JsString.t) (now : Z) (b : Board) : bool :=
  negb (Hook.isEmpty summary) &&
  negb (Hook.isEmpty (trim summary)) &&
  negb (JsString.eqb summary (lastSummary b)) &&
  negb (has (processedContents b) (trim summary)) &&
  negb (isSimilarToExisting summary (map content (notes b)) similarityThreshold) &&
  negb (now - lastNoteTime b <? minTimeBetweenNotes).

(** The effect on [summary]: a new note at the end, or nothing. *)
Definition onSummary (summary transcription : JsString.t) (now : Z)
                     (newId : JsString.t) (at_ : Q * Q)
                     (selectedColor date : JsString.t) (b : Board) : Board :=
  if accepts summary now b then
    MkBoard (notes b ++ [MkNote newId summary transcription at_ selectedColor date])
            (selectedNote b) summary transcription now
            (add (trim summary) (processedContents b))
  else b.

(** The effect on [isRecording]: a recording that starts empties the set. *)
Definition onRecordingStarted (b : Board) : Board :=
  MkBoard (notes b) (selectedNote b) (lastSummary b) (lastTranscription b)
          (lastNoteTime b) [].

(** [addNote]: an empty note, selected. *)
Definition addNote (at_ : Q * Q) (newId selectedColor date : JsString.t)
                   (b : Board) : Board :=
  MkBoard (notes b ++ [MkNote newId [] [] at_ selectedColor date])
          (Some newId) (lastSummary b) (lastTranscription b)
          (lastNoteTime b) (processedContents b).

Definition withNotes (ns : list Note) (b : Board) : Board :=
  MkBoard ns (selectedNote b) (lastSummary b) (lastTranscription b)
          (lastNoteTime b) (processedContents b).

Definition updateNoteContent (noteId newContent : JsString.t) (b : Board) : Board :=
  withNotes
    (map (fun note =>
            if JsString.eqb (id note) noteId
            then MkNote (id note) newContent (rawTranscription note)
                        (position note) (color note) (createdAt note)
            else note)
         (notes b)) b.

Definition updateNotePosition (noteId : JsString.t) (newPosition : Q * Q)
                              (b : Board) : Board :=
  withNotes
    (map (fun note =>
            if JsString.eqb (id note) noteId
            then MkNote (id note) (content note) (rawTranscription note)
                        newPosition (color note) (createdAt note)
            else note)
         (notes b)) b.

Definition updateNoteColor (noteId newColor : JsString.t) (b : Board) : Board :=
  withNotes
    (map (fun note =>
            if JsString.eqb (id note) noteId
            then MkNote (id note) (content note) (rawTranscription note)
                        (position note) newColor (createdAt note)
            else note)
         (notes b)) b.

(** [deleteNote]: the first note with the id gives the content to forget; all
    notes with the id go, and the selection with them. *)
Definition deleteNote (noteId : JsString.t) (b : Board) : Board :=
  let processed :=
    match find (fun note => JsString.eqb (id note) noteId) (notes b) with
    | Some noteToDelete => delete (trim (content noteToDelete)) (processedContents b)
    | None => processedContents b
    end in
  MkBoard (filter (fun note => negb (JsString.eqb (id note) noteId)) (notes b))
          (match selectedNote b with
           | Some prev => if JsString.eqb prev noteId then None else Some prev
           | None => None
           end)
          (lastSummary b) (lastTranscription b) (lastNoteTime b) processed.

(** The board of a component just mounted. *)
Definition emptyBoard : Board := MkBoard [] None [] [] 0 [].

(** *** Zoom *)

Local Open Scope Q_scope.

Definition inZoomRange (z : Q) : Prop := 1 # 2 <= z <= 2.

Definition zoomIn (prevZoom : Q) : Q := Qmin (prevZoom + (1 # 10)) 2.
Definition zoomOut (prevZoom : Q) : Q := Qmax (prevZoom - (1 # 10)) (1 # 2).
Definition resetZoom : Q := 1.

(** [handleWheel]; [modifier] is [ctrlKey || metaKey], [up] is [deltaY < 0]. *)
Definition handleWheel (modifier up : bool) (prevZoom : Q) : Q :=
  if modifier then
    let delta := if up then 5 # 100 else - (5 # 100) in
    Qmax (1 # 2) (Qmin 2 (prevZoom + delta))
  else prevZoom.

Inductive ZoomAction : Type :=
| ZoomIn
| ZoomOut
| ResetZoom
| Wheel (modifier up : bool).

Definition zoom (z : Q) (a : ZoomAction) : Q :=
  match a with
  | ZoomIn => zoomIn z
  | ZoomOut => zoomOut z
  | ResetZoom => resetZoom
  | Wheel modifier up => handleWheel modifier up z
  end.

End Canvas.

(** ** Quantities the statements below speak of *)

Module Measures.

Import Hook.

(** The sum of the weights of a table of indicators. *)
Definition totalWeight (inds : list Indicator) : Q :=
  fold_right (fun i acc => (weight i + acc)%Q) 0%Q inds.

(** Tables whose weights are not negative. *)
Definition nonNegative (inds : list Indicator) : Prop :=
  Forall (fun i => (0 <= weight i)%Q) inds.

(** What the flush logic never touches: the recorder, the stream, the
    analyser, the chunks, the level history and the error counter. *)
Definition sameCapture (h h' : Hook) : Prop :=
  mediaRecorder h' = mediaRecorder h /\
  stream h' = stream h /\
  analyser h' = analyser h /\
  audioChunks h' = audioChunks h /\
  audioLevelHistory h' = audioLevelHistory h /\
  transcriptionErrorCount h' = transcriptionErrorCount h.

(** Calls to the platform recorder. *)
Definition isRecorderCall (c : Call) : bool :=
  match c with
  | RecorderStart | RecorderStop | RecorderCreate => true
  | _ => false
  end.





End Measures.

Import Measures.

(** ** Inputs used by the statements below *)

Module Samples.

Import Hook.

Definition withBuffer (text : string) (h : Hook) : Hook :=
  set_accumulatedTranscription (str text) h.

(** A session stopped with one word in the buffer. *)
Definition oneWordAtStop : Hook := withBuffer " hello" initial.

(** A session stopped with three words in the buffer. *)
Definition threeWordsAtStop : Hook := withBuffer " one two three" initial.

(** A running session, silent for the whole history window since clock 0,
    three words buffered, last flush at clock 200. *)
Definition silentSession : Hook :=
  set_lastProcessingTime 200
    (set_silenceStartTime (Some 0%Z)
       (set_audioLevelHistory (repeat 0%Q 20)
          (set_mediaRecorder (Some Recording)
             (set_analyser true (set_stream true threeWordsAtStop))))).

(** A running session whose recorder just stopped with 500 bytes recorded. *)
Definition smallChunk : Hook :=
  set_audioChunks [200%Z; 300%Z]
    (set_mediaRecorder (Some Inactive) (set_stream true initial)).

(** A session with two transcription errors so far. *)
Definition twoErrors : Hook :=
  set_transcriptionErrorCount 2 (withBuffer " hi" initial).



(** A platform that records Ogg only. *)
Definition isTypeSupported_ogg (type : JsString.t) : bool :=
  JsString.eqb type (str "audio/ogg;codecs=opus").

End Samples.

(** * Properties *)

(** ** Strings *)

Module JsStringFacts.

Lemma eqb_eq (a b : JsString.t) : JsString.eqb a b = true <-> a = b.
Proof.
  unfold JsString.eqb. destruct (list_eq_dec ascii_dec a b); split;
    intros; congruence.
Qed.

Lemma eqb_refl (a : JsString.t) : JsString.eqb a a = true.
Proof. now apply eqb_eq. Qed.

Lemma eqb_neq (a b : JsString.t) : JsString.eqb a b = false <-> a <> b.
Proof.
  unfold JsString.eqb. destruct (list_eq_dec ascii_dec a b); split;
    intros; congruence.
Qed.

Lemma eqb_nil (a : JsString.t) :
  JsString.eqb a [] = match a with [] => true | _ :: _ => false end.
Proof.
  destruct a.
  - apply eqb_refl.
  - now apply eqb_neq.
Qed.

(** [trimStart] removes a prefix of white space and stops at the first code
    unit that is not. *)
Lemma trimStart_split (s : JsString.t) :
  exists p, s = p ++ trimStart s /\ forallb isSpace p = true.
Proof.
  induction s as [|c s [p [Hs Hp]]]; simpl.
  - now exists [].
  - destruct (isSpace c) eqn:Hc.
    + exists (c :: p). simpl. rewrite Hc, Hp. split; [now f_equal | reflexivity].
    + now exists [].
Qed.

Lemma trimStart_head (s : JsString.t) (c : ascii) (r : JsString.t) :
  trimStart s = c :: r -> isSpace c = false.
Proof.
  induction s as [|d s IH]; simpl; [discriminate|].
  destruct (isSpace d) eqn:Hd; [exact IH|].
  intros H. now injection H as -> _.
Qed.

Lemma trimStart_fixed (c : ascii) (s : JsString.t) :
  isSpace c = false -> trimStart (c :: s) = c :: s.
Proof. intros H. simpl. now rewrite H. Qed.

Lemma trimStart_app (x y : JsString.t) :
  trimStart (x ++ y) =
  match trimStart x with [] => trimStart y | _ :: _ => trimStart x ++ y end.
Proof.
  induction x as [|c x IH]; simpl; [reflexivity|].
  destruct (isSpace c); [exact IH | reflexivity].
Qed.

Lemma trimEnd_split (s : JsString.t) :
  exists q, s = trimEnd s ++ q /\ forallb isSpace q = true.
Proof.
  unfold trimEnd. destruct (trimStart_split (rev s)) as [p [Hs Hp]].
  exists (rev p). split.
  - rewrite <- rev_app_distr, <- Hs. now rewrite rev_involutive.
  - rewrite forallb_forall in *. intros c Hc. apply Hp. now apply in_rev.
Qed.

Lemma trimEnd_snoc (s : JsString.t) (c : ascii) :
  isSpace c = false -> trimEnd (s ++ [c]) = s ++ [c].
Proof.
  intros H. unfold trimEnd. rewrite rev_app_distr. simpl. rewrite H.
  simpl. now rewrite rev_involutive.
Qed.

Lemma trimEnd_nil : trimEnd [] = [].
Proof. reflexivity. Qed.

(** A trimmed string is the middle of the original, between two runs of
    white space. *)
Lemma trim_split (s : JsString.t) :
  exists p q, s = p ++ trim s ++ q /\
              forallb isSpace p = true /\ forallb isSpace q = true.
Proof.
  destruct (trimStart_split s) as [p [Hs Hp]].
  destruct (trimEnd_split (trimStart s)) as [q [Ht Hq]].
  exists p, q. unfold trim. now rewrite <- Ht.
Qed.

(** The head of a non-empty trimmed string is not white space, nor is its
    last code unit. *)
Lemma trim_cons_head (s : JsString.t) (c : ascii) (r : JsString.t) :
  trim s = c :: r -> isSpace c = false.
Proof.
  unfold trim. intros H.
  destruct (trimEnd_split (trimStart s)) as [q [Ht _]].
  rewrite H in Ht. simpl in Ht. now apply trimStart_head in Ht.
Qed.

Lemma trimEnd_fixed (s : JsString.t) :
  (forall c r, rev s = c :: r -> isSpace c = false) -> trimEnd s = s.
Proof.
  intros H. unfold trimEnd. destruct (rev s) as [|c r] eqn:E.
  - simpl. now rewrite <- (rev_involutive s), E.
  - rewrite trimStart_fixed by (now apply (H c r)).
    now rewrite <- E, rev_involutive.
Qed.

Lemma trimEnd_last (s : JsString.t) (c : ascii) (r : JsString.t) :
  rev (trimEnd s) = c :: r -> isSpace c = false.
Proof.
  unfold trimEnd. rewrite rev_involutive. apply trimStart_head.
Qed.

Lemma trim_idempotent (s : JsString.t) : trim (trim s) = trim s.
Proof.
  destruct (trim s) as [|c r] eqn:E; [reflexivity|].
  unfold trim at 1. rewrite trimStart_fixed by (now apply (trim_cons_head s E)).
  apply trimEnd_fixed. rewrite <- E. unfold trim. apply trimEnd_last.
Qed.

(** [split(' ')] gives one piece more than there are separators. *)
Lemma splitOn_length (sep : ascii -> bool) (s : JsString.t) :
  length (splitOn sep s) = S (length (filter sep s)).
Proof.
  induction s as [|c s IH]; simpl; [reflexivity|].
  destruct (sep c); simpl; [now rewrite IH|].
  destruct (splitOn sep s); simpl in *; [discriminate | exact IH].
Qed.

Lemma splitSpace_app_le (x y z : JsString.t) :
  length (splitSpace y) <= length (splitSpace (x ++ y ++ z)).
Proof.
  unfold splitSpace. rewrite !splitOn_length, !filter_app, !length_app. lia.
Qed.

Lemma splitSpace_trim_le (s : JsString.t) :
  length (splitSpace (trim s)) <= length (splitSpace s).
Proof.
  destruct (trim_split s) as [p [q [Hs _]]].
  rewrite Hs at 2. apply splitSpace_app_le.
Qed.

(** Case mapping. *)
Lemma lowerChar_idempotent (c : ascii) : lowerChar (lowerChar c) = lowerChar c.
Proof. destruct c as [[] [] [] [] [] [] [] []]; reflexivity. Qed.

Lemma lowerChar_not_upper (c : ascii) : isUpperAZ (lowerChar c) = false.
Proof. destruct c as [[] [] [] [] [] [] [] []]; reflexivity. Qed.

Lemma lowerChar_space (c : ascii) : isSpace (lowerChar c) = isSpace c.
Proof. destruct c as [[] [] [] [] [] [] [] []]; reflexivity. Qed.

Lemma toLowerCase_idempotent (s : JsString.t) :
  toLowerCase (toLowerCase s) = toLowerCase s.
Proof.
  unfold toLowerCase. rewrite map_map. apply map_ext.
  intros c. apply lowerChar_idempotent.
Qed.

Lemma toLowerCase_nil (s : JsString.t) : toLowerCase s = [] <-> s = [].
Proof. destruct s; simpl; split; intros; congruence. Qed.

Lemma toLowerCase_length (s : JsString.t) : length (toLowerCase s) = length s.
Proof. apply length_map. Qed.

Lemma trimStart_lower (s : JsString.t) :
  trimStart (toLowerCase s) = toLowerCase (trimStart s).
Proof.
  induction s as [|c s IH]; simpl; [reflexivity|].
  rewrite lowerChar_space. destruct (isSpace c); [exact IH | reflexivity].
Qed.

Lemma toLowerCase_rev (s : JsString.t) :
  rev (toLowerCase s) = toLowerCase (rev s).
Proof. unfold toLowerCase. now rewrite map_rev. Qed.

Lemma trim_lower (s : JsString.t) :
  trim (toLowerCase s) = toLowerCase (trim s).
Proof.
  unfold trim, trimEnd.
  now rewrite trimStart_lower, toLowerCase_rev, trimStart_lower, toLowerCase_rev.
Qed.

Lemma toLowerCase_no_upper (s : JsString.t) :
  forallb (fun c => negb (isUpperAZ c)) (toLowerCase s) = true.
Proof.
  unfold toLowerCase. rewrite forallb_forall. intros c Hc.
  apply in_map_iff in Hc as [d [<- _]]. now rewrite lowerChar_not_upper.
Qed.

Lemma trim_forallb (p : ascii -> bool) (s : JsString.t) :
  forallb p s = true -> forallb p (trim s) = true.
Proof.
  destruct (trim_split s) as [x [y [Hs _]]]. intros H.
  rewrite Hs, !forallb_app in H.
  apply andb_true_iff in H as [_ H]. now apply andb_true_iff in H as [H _].
Qed.

End JsStringFacts.

Import JsStringFacts.

(** ** The regular expression matcher *)

Module RegexFacts.

Lemma run_Seq_forward (r1 r2 : regex) (k : cursor) :
  Regex.run (Seq r1 r2) true k =
  flat_map (Regex.run r2 true) (Regex.run r1 true k).
Proof. reflexivity. Qed.

(** A class that rejects the code unit at the cursor matches nowhere there. *)
Lemma run_Cls_rejects (p : ascii -> bool) (k : cursor) :
  match after k with [] => True | c :: _ => p c = false end ->
  Regex.run (Cls p) true k = [].
Proof.
  destruct k as [pre [|c s]]; simpl; [reflexivity|].
  intros H. now rewrite H.
Qed.

(** A look-behind consumes nothing. *)
Lemma run_NotBehind_cases (r : regex) (k : cursor) :
  Regex.run (NotBehind r) true k = [k] \/ Regex.run (NotBehind r) true k = [].
Proof. simpl. destruct (Regex.run r false k); auto. Qed.

Lemma run_behind_Cls_rejects (r1 r2 : regex) (p : ascii -> bool) (k : cursor) :
  match after k with [] => True | c :: _ => p c = false end ->
  Regex.run (Seq (NotBehind r1) (Seq (Cls p) r2)) true k = [].
Proof.
  intros H. rewrite run_Seq_forward.
  destruct (run_NotBehind_cases r1 k) as [E | E]; rewrite E; cbn [flat_map];
    [|reflexivity].
  rewrite run_Seq_forward, (run_Cls_rejects p k H). reflexivity.
Qed.

(** A pattern that has to start on a code unit of a class finds nothing in a
    subject without such code units. *)
Lemma test_behind_Cls_rejects (r1 r2 : regex) (p : ascii -> bool)
                              (s pre : JsString.t) :
  forallb (fun c => negb (p c)) s = true ->
  testFrom (Seq (NotBehind r1) (Seq (Cls p) r2)) pre s = false.
Proof.
  revert pre. induction s as [|c s IH]; intros pre H.
  - unfold testFrom. now rewrite run_behind_Cls_rejects.
  - simpl in H. apply andb_true_iff in H as [Hc Hs].
    change (testFrom (Seq (NotBehind r1) (Seq (Cls p) r2)) pre (c :: s))
      with (match Regex.run (Seq (NotBehind r1) (Seq (Cls p) r2)) true
                            (Cursor pre (c :: s)) with
            | _ :: _ => true
            | [] => testFrom (Seq (NotBehind r1) (Seq (Cls p) r2)) (c :: pre) s
            end).
    rewrite run_behind_Cls_rejects.
    + now apply IH.
    + simpl. now apply negb_true_iff.
Qed.

(** The fuel of [iterate] and of [countFrom] is never used up: any amount
    above the number of code units left gives the same result. *)
Lemma iterate_fuel (step : cursor -> list cursor) (fwd : bool) (f1 f2 : nat)
                   (k : cursor) :
  remaining fwd k < f1 -> remaining fwd k < f2 ->
  iterate step fwd f1 k = iterate step fwd f2 k.
Proof.
  revert f2 k. induction f1 as [|f1 IH]; intros f2 k H1 H2; [lia|].
  destruct f2 as [|f2]; [lia|]. cbn [iterate]. f_equal.
  apply flat_map_ext. intros k'.
  destruct (remaining fwd k' <? remaining fwd k) eqn:E; [|reflexivity].
  apply Nat.ltb_lt in E. apply IH; lia.
Qed.

Lemma countFrom_fuel (r : regex) (f1 f2 : nat) (pre s : JsString.t) :
  length s < f1 -> length s < f2 ->
  countFrom r f1 pre s = countFrom r f2 pre s.
Proof.
  revert f2 pre s. induction f1 as [|f1 IH]; intros f2 pre s H1 H2; [lia|].
  destruct f2 as [|f2]; [lia|]. cbn [countFrom].
  destruct (Regex.run r true (Cursor pre s)) as [|k ks].
  - destruct s as [|c s]; [reflexivity|]. cbn [length] in *. apply IH; lia.
  - destruct (length (after k) <? length s) eqn:E.
    + apply Nat.ltb_lt in E. f_equal. apply IH; lia.
    + destruct s as [|c s]; [reflexivity|]. cbn [length] in *.
      f_equal. apply IH; lia.
Qed.

End RegexFacts.

Import RegexFacts.

(** ** Content quality *)

Module ContentAnalysisFacts.

Local Open Scope Q_scope.

Lemma clamp_bounds (s : Q) : 0 <= clamp s <= 1.
Proof.
  unfold clamp. split.
  - apply Q.le_max_l.
  - apply Q.max_lub; [discriminate | apply Q.le_min_l].
Qed.

Lemma properNouns_never_found (text : JsString.t) :
  test properNounsPattern (trim (toLowerCase text)) = false.
Proof.
  unfold test, properNounsPattern.
  apply test_behind_Cls_rejects, trim_forallb, toLowerCase_no_upper.
Qed.

Lemma applyIndicators_without_properNouns (s : JsString.t) (acc : Q * list string) :
  test properNounsPattern s = false ->
  applyIndicators infoIndicators s acc =
  applyIndicators indicatorsWithoutProperNouns s acc.
Proof.
  intros H. unfold infoIndicators, indicatorsWithoutProperNouns.
  cbn [applyIndicators].
  change (pattern properNouns) with properNounsPattern. now rewrite H.
Qed.

Lemma analyzeWith_lower (inds : list Indicator) (text : JsString.t) :
  analyzeWith inds (toLowerCase text) = analyzeWith inds text.
Proof.
  unfold analyzeWith. rewrite toLowerCase_idempotent, !eqb_nil.
  pose proof (trim_lower text) as H.
  destruct (trim text) as [|c r]; rewrite H; reflexivity.
Qed.

(** C1. For every text the score of [analyzeContentQuality] lies in [0,1],
    and a noteworthy verdict comes with a score of at least 0.15: an empty or
    blank text scores 0 and is not noteworthy, a text of fewer than 3 words
    scores 0.1 and is not noteworthy, and for every other text the verdict is
    exactly [score >= 0.15] on the clamped score. *)
Theorem analyzeContentQuality_score_bounds (text : JsString.t) :
  let q := analyzeContentQuality text in
  let wordCount := length (splitWs (trim (toLowerCase text))) in
  (0 <= score q <= 1) /\
  (isNoteworthy q = true -> threshold <= score q) /\
  (trim text = [] -> score q = 0 /\ isNoteworthy q = false) /\
  (trim text <> [] -> (wordCount < 3)%nat ->
     score q = 1 # 10 /\ isNoteworthy q = false) /\
  (trim text <> [] -> (3 <= wordCount)%nat ->
     score q = clamp (rawScore infoIndicators (trim (toLowerCase text))) /\
     isNoteworthy q = Qle_bool threshold (score q)).
Proof.
  cbv zeta. unfold analyzeContentQuality, analyzeWith. rewrite eqb_nil.
  destruct (trim text) as [|c r] eqn:E.
  - cbn [score isNoteworthy]. repeat split; try discriminate; congruence.
  - destruct (length (splitWs (trim (toLowerCase text))) <? 3)%nat eqn:W;
      cbn [score isNoteworthy].
    + apply Nat.ltb_lt in W.
      repeat split; try discriminate; try congruence; intros; lia.
    + apply Nat.ltb_ge in W.
      repeat split; try apply clamp_bounds; try congruence; try (intros; lia).
      intros H. now apply Qle_bool_iff.
Qed.

(** The bounds of C1 at a noteworthy report sentence. *)
Lemma analyzeContentQuality_score_bounds_witness :
  threshold <=
  score (analyzeContentQuality
           (str "The report shows a 20% increase in Q3 revenue")).
Proof.
  apply (analyzeContentQuality_score_bounds
           (str "The report shows a 20% increase in Q3 revenue")).
  vm_compute. reflexivity.
Defined.

(** C7. The text "um, so, yeah" has three words, matches no indicator and two
    fillers; its score is 0.15 - (2/3) * 0.1, which is at most 0.15, and it is
    not noteworthy. *)
Theorem um_so_yeah_not_noteworthy :
  let text := str "um, so, yeah" in
  let q := analyzeContentQuality text in
  length (splitWs text) = 3%nat /\
  snd (applyIndicators infoIndicators text (15 # 100, [])) = [] /\
  countFillers text = 2%nat /\
  score q == (15 # 100) - (2 # 3) * (1 # 10) /\
  score q <= 15 # 100 /\
  isNoteworthy q = false.
Proof.
  cbv zeta. repeat split; try (vm_compute; reflexivity).
  apply Qle_bool_iff. vm_compute. reflexivity.
Qed.

(** C10. [analyzeContentQuality] does not see the case of its input: a text
    and its lower-case form get the same result; the capitalisation pattern
    never matches the text it is tested on, and the result is the one of the
    table without the "proper nouns" indicator. *)
Theorem analyzeContentQuality_case_insensitive (text : JsString.t) :
  analyzeContentQuality text = analyzeContentQuality (toLowerCase text) /\
  test properNounsPattern (trim (toLowerCase text)) = false /\
  analyzeContentQuality text = analyzeWith indicatorsWithoutProperNouns text.
Proof.
  repeat split.
  - unfold analyzeContentQuality. now rewrite analyzeWith_lower.
  - apply properNouns_never_found.
  - unfold analyzeContentQuality, analyzeWith, rawScore.
    now rewrite !applyIndicators_without_properNouns
      by apply properNouns_never_found.
Qed.

End ContentAnalysisFacts.

(** ** Similarity *)

Module SimilarityFacts.

Lemma includesWord_In (ws : list JsString.t) (w : JsString.t) :
  includesWord ws w = true <-> In w ws.
Proof.
  unfold includesWord. rewrite existsb_exists. split.
  - intros [x [Hx E]]. apply eqb_eq in E. now subst.
  - intros H. exists w. split; [exact H | apply eqb_refl].
Qed.

Lemma countMatching_filter (words1 words2 : list JsString.t) :
  countMatching words1 words2 = length (filter (includesWord words2) words1).
Proof.
  induction words1 as [|w ws IH]; simpl; [reflexivity|].
  destruct (includesWord words2 w); simpl; now rewrite IH.
Qed.

(** Without repeated words, both directions count the common words. *)
Lemma countMatching_comm (words1 words2 : list JsString.t) :
  NoDup words1 -> NoDup words2 ->
  countMatching words1 words2 = countMatching words2 words1.
Proof.
  intros H1 H2. rewrite !countMatching_filter.
  apply Permutation_length, NoDup_Permutation.
  - now apply NoDup_filter.
  - now apply NoDup_filter.
  - intros w. rewrite !filter_In, !includesWord_In. tauto.
Qed.

Lemma eqb_sym (a b : JsString.t) : JsString.eqb a b = JsString.eqb b a.
Proof.
  destruct (JsString.eqb b a) eqn:E.
  - apply eqb_eq in E. subst. apply eqb_refl.
  - apply eqb_neq in E. apply eqb_neq. congruence.
Qed.

(** The edit distance of a string to itself: row [i] of the matrix is
    [diagonalRow]. *)
Lemma fillRow_diagonal (ai : ascii) (bs : JsString.t) (i j : nat) :
  (j <= i -> nth_error bs (i - j) = Some ai) ->
  fillRow ai bs (map (absdiff i) (seq j (S (length bs)))) (absdiff (S i) j) =
  map (absdiff (S i)) (seq (S j) (length bs)).
Proof.
  revert j. induction bs as [|b bs IH]; intros j H; [reflexivity|].
  cbn [length seq map fillRow].
  assert (C : min3 (absdiff i (S j) + 1) (absdiff (S i) j + 1)
                   (absdiff i j + (if Ascii.eqb ai b then 0 else 1))
              = absdiff (S i) (S j)).
  { unfold min3, absdiff. destruct (Ascii.eqb ai b) eqn:E; [lia|].
    assert (i <> j).
    { intros ->. rewrite Nat.sub_diag in H. specialize (H (Nat.le_refl _)).
      simpl in H. injection H as ->. now rewrite Ascii.eqb_refl in E. }
    lia. }
  rewrite C. f_equal.
  apply (IH (S j)). intros Hj.
  replace (i - j) with (S (i - S j)) in H by lia. apply H. lia.
Qed.

Lemma nextRow_diagonal (x : JsString.t) (i : nat) (ai : ascii) :
  nth_error x i = Some ai ->
  nextRow (S i) ai x (diagonalRow (length x) i) = diagonalRow (length x) (S i).
Proof.
  intros H. unfold nextRow, diagonalRow.
  assert (E : absdiff (S i) 0 = S i) by (unfold absdiff; lia).
  pose proof (@fillRow_diagonal ai x i 0) as F. rewrite E, Nat.sub_0_r in F.
  rewrite F by (intros _; exact H).
  cbn [seq map]. now rewrite E.
Qed.

Lemma fillRows_diagonal (x pre a : JsString.t) :
  x = pre ++ a ->
  fillRows a x (length pre) (diagonalRow (length x) (length pre)) =
  diagonalRow (length x) (length x).
Proof.
  revert pre. induction a as [|ai a IH]; intros pre E.
  - rewrite app_nil_r in E. now subst.
  - cbn [fillRows]. rewrite nextRow_diagonal.
    + specialize (IH (pre ++ [ai])). rewrite length_app, Nat.add_1_r in IH.
      apply IH. now rewrite <- app_assoc.
    + subst x. rewrite nth_error_app2, Nat.sub_diag by lia. reflexivity.
Qed.

Lemma levenshtein_same (x : JsString.t) : levenshtein x x = 0.
Proof.
  unfold levenshtein.
  assert (R0 : seq 0 (S (length x)) = diagonalRow (length x) 0).
  { unfold diagonalRow. rewrite <- (map_id (seq 0 (S (length x)))) at 1.
    apply map_ext. intros j. unfold absdiff. lia. }
  pose proof (@fillRows_diagonal x [] x eq_refl) as F. cbn [length] in F.
  rewrite R0, F.
  unfold diagonalRow. rewrite seq_S, map_app. cbn [map].
  rewrite last_last. unfold absdiff. lia.
Qed.

Local Open Scope Q_scope.

Lemma ratio_zero (d : nat) : ratio 0 d == 0.
Proof. unfold ratio. simpl inject_Z at 1. unfold Qdiv. apply Qmult_0_l. Qed.

Lemma normalizedSimilarity_same (x : JsString.t) : normalizedSimilarity x x == 1.
Proof.
  unfold normalizedSimilarity.
  destruct (Nat.max (length x) (length x) =? 0)%nat; [reflexivity|].
  rewrite levenshtein_same, ratio_zero. reflexivity.
Qed.

(** Strings that agree up to case compare as identical. *)
Lemma calculateStringSimilarity_fold (a b : JsString.t) :
  toLowerCase a = toLowerCase b -> calculateStringSimilarity a b == 1.
Proof.
  intros H. unfold calculateStringSimilarity.
  destruct (JsString.eqb a b) eqn:E; [reflexivity|].
  apply eqb_neq in E.
  destruct a as [|c a], b as [|d b]; try discriminate; [congruence|].
  cbn [length Nat.eqb orb]. rewrite H. apply normalizedSimilarity_same.
Qed.

(** Otherwise the result is a function of the lower-case forms. *)
Lemma calculateStringSimilarity_unfold (a b : JsString.t) :
  toLowerCase a <> toLowerCase b ->
  calculateStringSimilarity a b =
  if (length (toLowerCase a) =? 0)%nat || (length (toLowerCase b) =? 0)%nat
  then 0
  else normalizedSimilarity (trim (toLowerCase a)) (trim (toLowerCase b)).
Proof.
  intros H. unfold calculateStringSimilarity.
  destruct (JsString.eqb a b) eqn:E.
  - apply eqb_eq in E. congruence.
  - now rewrite !toLowerCase_length.
Qed.

(** C2 fails as stated: with a repeated word the two orders count different
    numbers of matches, 2 of 3 against 1 of 3. *)
Lemma simple_similarity_order_dependent :
  calculateSimpleStringSimilarity (str "x x y") (str "x z") == 2 # 3 /\
  calculateSimpleStringSimilarity (str "x z") (str "x x y") == 1 # 3 /\
  ~ (calculateSimpleStringSimilarity (str "x x y") (str "x z") ==
     calculateSimpleStringSimilarity (str "x z") (str "x x y")).
Proof. vm_compute. repeat split; intros; discriminate. Qed.

(** C2, amended. The word-overlap similarity does not depend on the order of
    its arguments when neither of them, in lower case, repeats a word. *)
Theorem simple_similarity_symmetric (a b : JsString.t) :
  NoDup (splitWs (toLowerCase a)) ->
  NoDup (splitWs (toLowerCase b)) ->
  calculateSimpleStringSimilarity a b = calculateSimpleStringSimilarity b a.
Proof.
  intros Ha Hb. unfold calculateSimpleStringSimilarity.
  rewrite (eqb_sym (toLowerCase b)),
          (orb_comm (length (toLowerCase b) =? 0)%nat),
          (countMatching_comm Hb Ha),
          (Nat.max_comm (length (splitWs (toLowerCase b)))).
  reflexivity.
Qed.

Lemma simple_similarity_symmetric_witness :
  calculateSimpleStringSimilarity (str "Meeting moved") (str "moved today") =
  calculateSimpleStringSimilarity (str "moved today") (str "Meeting moved").
Proof.
  apply simple_similarity_symmetric; vm_compute;
    repeat (constructor; [simpl; intuition discriminate|]); constructor.
Defined.

(** C6 fails as stated at the empty string: two empty strings are identical,
    and both measures return 1 for them, not 0. *)
Lemma similarity_of_empty_strings :
  calculateSimpleStringSimilarity [] [] == 1 /\
  calculateStringSimilarity [] [] == 1 /\
  ~ (calculateSimpleStringSimilarity [] [] == 0) /\
  ~ (calculateStringSimilarity [] [] == 0).
Proof. vm_compute. repeat split; intros; discriminate. Qed.

(** C6, amended. For both measures a non-empty string has similarity 1 to
    itself and 0 to the empty string, on either side; and the result depends
    on the arguments only up to case. *)
Theorem similarity_identity_empty_case :
  (forall s : JsString.t, s <> [] ->
     calculateSimpleStringSimilarity s s == 1 /\
     calculateSimpleStringSimilarity s [] == 0 /\
     calculateSimpleStringSimilarity [] s == 0 /\
     calculateStringSimilarity s s == 1 /\
     calculateStringSimilarity s [] == 0 /\
     calculateStringSimilarity [] s == 0) /\
  (forall a b a' b' : JsString.t,
     toLowerCase a = toLowerCase a' -> toLowerCase b = toLowerCase b' ->
     calculateSimpleStringSimilarity a b == calculateSimpleStringSimilarity a' b' /\
     calculateStringSimilarity a b == calculateStringSimilarity a' b').
Proof.
  split.
  - intros [|c s] H; [congruence|].
    unfold calculateSimpleStringSimilarity, calculateStringSimilarity.
    rewrite !eqb_refl.
    assert (E1 : JsString.eqb (toLowerCase (c :: s)) (toLowerCase []) = false)
      by (now apply eqb_neq).
    assert (E2 : JsString.eqb (toLowerCase []) (toLowerCase (c :: s)) = false)
      by (now apply eqb_neq).
    assert (E3 : JsString.eqb (c :: s) [] = false) by (now apply eqb_neq).
    assert (E4 : JsString.eqb [] (c :: s) = false) by (now apply eqb_neq).
    rewrite E1, E2, E3, E4. cbn [toLowerCase map length Nat.eqb orb].
    repeat split; reflexivity.
  - intros a b a' b' Ha Hb. split.
    + unfold calculateSimpleStringSimilarity. rewrite Ha, Hb. reflexivity.
    + destruct (list_eq_dec ascii_dec (toLowerCase a) (toLowerCase b)) as [E | E].
      * rewrite (calculateStringSimilarity_fold _ _ E).
        rewrite Ha, Hb in E. now rewrite (calculateStringSimilarity_fold _ _ E).
      * rewrite (calculateStringSimilarity_unfold _ _ E).
        rewrite Ha, Hb in E. rewrite (calculateStringSimilarity_unfold _ _ E).
        rewrite Ha, Hb. reflexivity.
Qed.

Lemma similarity_identity_empty_case_witness :
  (calculateStringSimilarity (str "Note") (str "Note") == 1 /\
   calculateSimpleStringSimilarity (str "Note") [] == 0) /\
  (calculateSimpleStringSimilarity (str "Budget Review") (str "review")
     == calculateSimpleStringSimilarity (str "budget review") (str "REVIEW") /\
   calculateStringSimilarity (str "Budget Review") (str "review")
     == calculateStringSimilarity (str "budget review") (str "REVIEW")).
Proof.
  destruct similarity_identity_empty_case as [Hs Hc]. split.
  - destruct (Hs (str "Note")) as [_ [H2 [_ [H4 _]]]]; [discriminate|].
    split; assumption.
  - apply Hc; reflexivity.
Defined.

End SimilarityFacts.

(** ** The hook *)

Module HookFacts.

Import Hook.

Ltac split_ifs :=
  repeat match goal with
         | |- context [if ?c then _ else _] => destruct c
         end.

Lemma isEmpty_false (s : JsString.t) : isEmpty s = false <-> s <> [].
Proof. destruct s; simpl; split; intros; congruence. Qed.

Lemma scored_app (xs ys : list Call) : scored (xs ++ ys) = scored xs ++ scored ys.
Proof.
  induction xs as [|c xs IH]; [reflexivity|].
  destruct c; simpl; now rewrite IH.
Qed.

(** *** The scorer is called with the trimmed buffer, behind the gate *)

Lemma generateTopicalNote_begin_scored (text : JsString.t) (h : Hook) :
  isEmpty text || isEmpty (trim text) = false ->
  scored (snd (fst (generateTopicalNote_begin text h))) = [text].
Proof.
  intros H. unfold generateTopicalNote_begin. rewrite H. cbv zeta.
  split_ifs; reflexivity.
Qed.

Lemma generateTopicalNote_begin_buffer (text : JsString.t) (h : Hook) :
  accumulatedTranscription (fst (fst (generateTopicalNote_begin text h))) =
  accumulatedTranscription h.
Proof.
  unfold generateTopicalNote_begin. cbv zeta. split_ifs; reflexivity.
Qed.

Lemma gate_true (h : Hook) :
  gate h = true <->
  trim (accumulatedTranscription h) <> [] /\
  3 <= wordCountOf (trim (accumulatedTranscription h)).
Proof.
  unfold gate, minContentLength.
  rewrite andb_true_iff, negb_true_iff, isEmpty_false, Nat.leb_le. tauto.
Qed.

Lemma processAccumulatedContent_begin_closed (h : Hook) :
  gate h = false -> processAccumulatedContent_begin h = (h, [], false).
Proof.
  unfold gate, processAccumulatedContent_begin. cbv zeta. now intros ->.
Qed.

Lemma processAccumulatedContent_begin_open (h : Hook) :
  gate h = true ->
  scored (snd (fst (processAccumulatedContent_begin h))) =
  [trim (accumulatedTranscription h)].
Proof.
  intros G. pose proof G as G'. apply gate_true in G' as [Hne _].
  unfold gate in G. unfold processAccumulatedContent_begin. cbv zeta.
  rewrite G.
  set (content := trim (accumulatedTranscription h)) in *.
  set (h1 := set_transcription content (set_isProcessing true h)).
  pose proof (generateTopicalNote_begin_scored content h1) as S.
  destruct (generateTopicalNote_begin content h1) as [[h2 calls] [|]];
    cbn [fst snd] in *; apply S;
    apply orb_false_iff; split; apply isEmpty_false; try assumption;
    unfold content; now rewrite trim_idempotent.
Qed.

(** After the synchronous part, the buffer is either untouched or cleared. *)
Lemma processAccumulatedContent_begin_buffer (h : Hook) :
  let h' := fst (fst (processAccumulatedContent_begin h)) in
  accumulatedTranscription h' = accumulatedTranscription h \/
  accumulatedTranscription h' = [].
Proof.
  cbv zeta. unfold processAccumulatedContent_begin. cbv zeta.
  destruct (_ && _); [|now left].
  set (content := trim (accumulatedTranscription h)).
  set (h1 := set_transcription content (set_isProcessing true h)).
  pose proof (generateTopicalNote_begin_buffer content h1) as B.
  destruct (generateTopicalNote_begin content h1) as [[h2 calls] [|]];
    cbn [fst snd] in *.
  - left. rewrite B. reflexivity.
  - right. reflexivity.
Qed.

Lemma processAccumulatedContent_open (h : Hook) :
  gate h = true ->
  scored (snd (processAccumulatedContent h)) = [trim (accumulatedTranscription h)].
Proof. apply processAccumulatedContent_begin_open. Qed.

Lemma processAccumulatedContent_closed (h : Hook) :
  gate h = false -> processAccumulatedContent h = (h, []).
Proof.
  intros G. unfold processAccumulatedContent.
  now rewrite processAccumulatedContent_begin_closed.
Qed.

(** A text handed to the scorer is not empty and not blank. *)
Lemma processAccumulatedContent_nonBlank (h : Hook) :
  Forall nonBlank (scored (snd (processAccumulatedContent h))).
Proof.
  destruct (gate h) eqn:G.
  - rewrite (processAccumulatedContent_open h G).
    apply gate_true in G as [Hne _].
    constructor; [|constructor]. split; [exact Hne|].
    now rewrite trim_idempotent.
  - rewrite (processAccumulatedContent_closed h G). constructor.
Qed.


(** *** Handlers that never call the scorer *)

Lemma createAndStartMediaRecorder_scored (h : Hook) :
  scored (snd (createAndStartMediaRecorder h)) = [].
Proof.
  unfold createAndStartMediaRecorder.
  destruct (mediaRecorder h) as [[|]|]; reflexivity.
Qed.

Lemma restartRecording_scored (h : Hook) : scored (snd (restartRecording h)) = [].
Proof.
  unfold restartRecording. destruct (stream h); [|reflexivity].
  destruct (mediaRecorder h) as [[|]|]; try reflexivity.
  pose proof (createAndStartMediaRecorder_scored (set_audioChunks [] h)) as C.
  destruct (createAndStartMediaRecorder (set_audioChunks [] h)) as [h' calls].
  exact C.
Qed.

Lemma restartRecording_keeps (h : Hook) :
  let h' := fst (restartRecording h) in
  accumulatedTranscription h' = accumulatedTranscription h /\
  transcriptionErrorCount h' = transcriptionErrorCount h /\
  stream h' = stream h /\
  existsb transcribes (snd (restartRecording h)) = false.
Proof.
  cbv zeta. unfold restartRecording, createAndStartMediaRecorder.
  destruct h as [? ? ? ? ? [[|]|] ? ? ? ? ? ? [|] ? ? ? ? ? ?]; cbn;
    repeat split.
Qed.

(** Where a recorder and a stream are there, the restart leaves the recorder
    recording, with no chunk kept. *)
Lemma restartRecording_resumes (h : Hook) :
  stream h = true -> mediaRecorder h <> None ->
  mediaRecorder (fst (restartRecording h)) = Some Recording /\
  audioChunks (fst (restartRecording h)) = [].
Proof.
  unfold restartRecording, createAndStartMediaRecorder.
  destruct h as [? ? ? ? ? [[|]|] ? ? ? ? ? ? [|] ? ? ? ? ? ?]; cbn;
    intros; try discriminate; try congruence; split; reflexivity.
Qed.

Lemma checkForSpeechPause_nonBlank (now : Z) (h : Hook) :
  Forall nonBlank (scored (snd (checkForSpeechPause now h))).
Proof.
  unfold checkForSpeechPause. cbv zeta.
  destruct (silenceStartTime h);
    split_ifs; try apply processAccumulatedContent_nonBlank; constructor.
Qed.

Lemma sampleAudioLevel_nonBlank (average : Q) (now : Z) (h : Hook) :
  Forall nonBlank (scored (snd (sampleAudioLevel average now h))).
Proof.
  unfold sampleAudioLevel. cbv zeta.
  destruct (negb (analyser h) || isNone (mediaRecorder h)); [constructor|].
  match goal with
  | |- context [checkForSpeechPause now ?x] =>
      pose proof (checkForSpeechPause_nonBlank now x) as C;
      destruct (checkForSpeechPause now x) as [h' calls]
  end.
  exact C.
Qed.

Lemma handleTranscriptionError_nonBlank (h : Hook) :
  Forall nonBlank (scored (snd (handleTranscriptionError h))).
Proof.
  unfold handleTranscriptionError. cbv zeta.
  split_ifs; try apply processAccumulatedContent_nonBlank; constructor.
Qed.

Lemma processAudioChunks_begin_scored (h : Hook) :
  scored (snd (fst (processAudioChunks_begin h))) = [].
Proof.
  unfold processAudioChunks_begin. cbv zeta.
  destruct (audioChunks h) as [|c cs].
  - pose proof (restartRecording_scored (set_isProcessing false h)) as R.
    destruct (restartRecording (set_isProcessing false h)) as [h1 calls1].
    exact R.
  - destruct (_ <? _)%Z; [|reflexivity].
    match goal with
    | |- context [restartRecording ?x] =>
        pose proof (restartRecording_scored x) as R1;
        destruct (restartRecording x) as [h1 calls1]
    end.
    pose proof (restartRecording_scored (set_isProcessing false h1)) as R2.
    destruct (restartRecording (set_isProcessing false h1)) as [h2 calls2].
    cbn [fst snd] in *. now rewrite scored_app, R1, R2.
Qed.

Lemma transcriptionSettled_nonBlank (result : Transcription) (now : Z) (h : Hook) :
  Forall nonBlank (scored (snd (transcriptionSettled result now h))).
Proof.
  unfold transcriptionSettled.
  destruct result as [text|]; cbv zeta;
    split_ifs;
    try apply processAccumulatedContent_nonBlank;
    try apply handleTranscriptionError_nonBlank; constructor.
Qed.

Lemma processAudioChunks_resume_nonBlank (result : Transcription) (now : Z)
                                         (h : Hook) :
  Forall nonBlank (scored (snd (processAudioChunks_resume result now h))).
Proof.
  unfold processAudioChunks_resume.
  pose proof (transcriptionSettled_nonBlank result now h) as A.
  destruct (transcriptionSettled result now h) as [h1 calls1].
  pose proof (restartRecording_scored (set_isProcessing false h1)) as R.
  destruct (restartRecording (set_isProcessing false h1)) as [h2 calls2].
  cbn [fst snd] in *. now rewrite scored_app, R, app_nil_r.
Qed.

Lemma releaseSession_keeps (h : Hook) :
  accumulatedTranscription (fst (releaseSession h)) = accumulatedTranscription h /\
  scored (snd (releaseSession h)) = [].
Proof.
  unfold releaseSession. cbv zeta.
  destruct h as [? ? ? ? ? [[|]|] ? ? ? ? ? ? ? ? ? ? ? ? ?]; split; reflexivity.
Qed.

Lemma startRecording_scored (granted monitoring : bool) (now : Z) (h : Hook) :
  scored (snd (startRecording granted monitoring now h)) = [].
Proof.
  unfold startRecording. cbv zeta. destruct granted; [|reflexivity].
  match goal with
  | |- context [createAndStartMediaRecorder ?x] =>
      pose proof (createAndStartMediaRecorder_scored x) as C;
      destruct (createAndStartMediaRecorder x) as [h' calls]
  end.
  exact C.
Qed.

Lemma stopRecording_scored (h : Hook) :
  scored (snd (stopRecording h)) =
  if gate h then [trim (accumulatedTranscription h)] else [].
Proof.
  unfold stopRecording, stopRecording_begin.
  destruct (releaseSession_keeps h) as [B R].
  destruct (releaseSession h) as [h1 calls1]. cbn [fst snd] in B, R.
  assert (G : gate h1 = gate h) by (unfold gate; now rewrite B).
  rewrite B. destruct (gate h) eqn:Gh.
  - pose proof Gh as Gh'. apply gate_true in Gh' as [Hne _].
    apply isEmpty_false in Hne. rewrite Hne. cbn [negb].
    pose proof (processAccumulatedContent_begin_open h1 G) as P. rewrite B in P.
    destruct (processAccumulatedContent_begin h1) as [[h2 calls2] [|]];
      cbn [fst snd] in *; now rewrite scored_app, R, P.
  - destruct (negb _); cbn [fst snd]; [|exact R].
    rewrite (processAccumulatedContent_begin_closed h1 G). cbn [fst snd].
    now rewrite scored_app, R.
Qed.

Lemma stopRecording_closed_buffer (h : Hook) :
  gate h = false ->
  accumulatedTranscription (fst (stopRecording h)) = accumulatedTranscription h.
Proof.
  intros Gh. unfold stopRecording, stopRecording_begin.
  destruct (releaseSession_keeps h) as [B _].
  destruct (releaseSession h) as [h1 calls1]. cbn [fst snd] in B.
  assert (G : gate h1 = false) by (unfold gate in *; now rewrite B).
  destruct (negb _); cbn [fst snd]; [|exact B].
  rewrite (processAccumulatedContent_begin_closed h1 G). exact B.
Qed.

Lemma step_nonBlank (h : Hook) (e : Event) :
  Forall nonBlank (scored (snd (step h e))).
Proof.
  destruct e; cbn [step snd].
  - rewrite startRecording_scored. constructor.
  - rewrite stopRecording_scored. destruct (gate h) eqn:G; [|constructor].
    apply gate_true in G as [Hne _]. constructor; [|constructor].
    split; [exact Hne | now rewrite trim_idempotent].
  - apply sampleAudioLevel_nonBlank.
  - unfold onInterval. destruct (processingTimeout h); [|constructor].
    destruct (mediaRecorder h) as [[|]|]; constructor.
  - constructor.
  - rewrite processAudioChunks_begin_scored. constructor.
  - apply processAudioChunks_resume_nonBlank.
  - constructor.
Qed.

Lemma runEvents_nonBlank (es : list Event) (h : Hook) :
  Forall nonBlank (scored (snd (runEvents h es))).
Proof.
  revert h. induction es as [|e es IH]; intros h; [constructor|].
  cbn [runEvents]. pose proof (step_nonBlank h e) as S.
  destruct (step h e) as [h1 calls1]. specialize (IH h1).
  destruct (runEvents h1 es) as [h2 calls2]. cbn [snd] in *.
  rewrite scored_app. apply Forall_app. now split.
Qed.

(** C8. No rule flushes an empty or blank buffer: with such a buffer
    [processAccumulatedContent] does nothing and a stop hands nothing to the
    scorer, and in every run of the hook, from any state, every text handed
    to the scorer is neither empty nor blank. *)
Theorem flush_never_blank :
  (forall h : Hook,
     trim (accumulatedTranscription h) = [] ->
     processAccumulatedContent h = (h, []) /\
     scored (snd (stopRecording h)) = []) /\
  (forall (h : Hook) (es : list Event) (text : JsString.t),
     In text (scored (snd (runEvents h es))) ->
     text <> [] /\ trim text <> []).
Proof.
  split.
  - intros h H.
    assert (G : gate h = false) by (unfold gate; now rewrite H).
    split; [now apply processAccumulatedContent_closed|].
    now rewrite stopRecording_scored, G.
  - intros h es text H.
    pose proof (runEvents_nonBlank es h) as F.
    rewrite Forall_forall in F. now apply F.
Qed.

Lemma flush_never_blank_witness :
  scored (snd (stopRecording initial)) = [] /\
  str "one two three" <> [] /\ trim (str "one two three") <> [].
Proof.
  destruct flush_never_blank as [Hblank Hrun]. split.
  - apply (Hblank initial). reflexivity.
  - apply (Hrun Samples.threeWordsAtStop [Stop]). vm_compute. now left.
Defined.

(** C3 fails as stated: a stop with the single word "hello" in the buffer
    hands nothing to the scorer and leaves the buffer as it was. *)
Lemma stop_keeps_short_buffer :
  trim (accumulatedTranscription Samples.oneWordAtStop) = str "hello" /\
  wordCountOf (trim (accumulatedTranscription Samples.oneWordAtStop)) = 1 /\
  snd (stopRecording Samples.oneWordAtStop) = [] /\
  accumulatedTranscription (fst (stopRecording Samples.oneWordAtStop)) =
  str " hello".
Proof. vm_compute. repeat split. Qed.

(** C3, amended. On a stop with a buffer that is not blank, the time of the
    last flush plays no part, but the word gate of
    [processAccumulatedContent] still applies: with 3 words or more the
    trimmed buffer is handed to the scorer, with fewer nothing is and the
    buffer stays. *)
Theorem stop_flush_word_gate (h : Hook) (lastFlush : Z) :
  let h := set_lastProcessingTime lastFlush h in
  let content := trim (accumulatedTranscription h) in
  content <> [] ->
  (3 <= wordCountOf content -> scored (snd (stopRecording h)) = [content]) /\
  (wordCountOf content < 3 ->
     scored (snd (stopRecording h)) = [] /\
     accumulatedTranscription (fst (stopRecording h)) =
     accumulatedTranscription h).
Proof.
  cbv zeta. intros Hne. split; intros W.
  - rewrite stopRecording_scored.
    assert (G : gate (set_lastProcessingTime lastFlush h) = true)
      by (now apply gate_true).
    now rewrite G.
  - assert (G : gate (set_lastProcessingTime lastFlush h) = false).
    { destruct (gate _) eqn:G; [|reflexivity].
      apply gate_true in G as [_ G]. lia. }
    split; [now rewrite stopRecording_scored, G|].
    now apply stopRecording_closed_buffer.
Qed.

Lemma stop_flush_word_gate_witness :
  scored (snd (stopRecording
                 (set_lastProcessingTime 0 Samples.threeWordsAtStop))) =
  [str "one two three"].
Proof.
  apply (stop_flush_word_gate Samples.threeWordsAtStop 0).
  - discriminate.
  - vm_compute. lia.
Defined.

(** C4 fails as stated: with 5 silent samples, 1000 ms of silence, three words
    buffered and exactly 800 ms since the last flush, nothing is flushed. *)
Lemma pause_at_minimum_interval :
  let h := Samples.silentSession in
  let now := 1000%Z in
  isCurrentlySilent h = true /\
  silenceStartTime h = Some 0%Z /\
  (pauseDetectionThreshold <= now - 0)%Z /\
  length (audioLevelHistory h) = 20 /\
  wordCountOf (trim (accumulatedTranscription h)) = 3 /\
  wordCountOf (accumulatedTranscription h) = 4 /\
  (now - lastProcessingTime h = minTimeBetweenNotes)%Z /\
  checkForSpeechPause now h = (h, []).
Proof. cbv zeta. repeat split; vm_compute; congruence. Qed.

Lemma wordCountOf_nil : wordCountOf [] = 1.
Proof. reflexivity. Qed.

(** C4, amended. When the history holds at least 5 samples and the last 5 are
    below [minSilenceLevel], the silence has lasted 400 ms or more, the
    trimmed buffer has 3 words or more and MORE than 800 ms have passed since
    the last flush, [checkForSpeechPause] hands the trimmed buffer to the
    scorer. *)
Theorem pause_flush (h : Hook) (now silenceStart : Z) :
  5 <= length (audioLevelHistory h) ->
  isCurrentlySilent h = true ->
  silenceStartTime h = Some silenceStart ->
  (pauseDetectionThreshold <= now - silenceStart)%Z ->
  minContentLength <= wordCountOf (trim (accumulatedTranscription h)) ->
  (minTimeBetweenNotes < now - lastProcessingTime h)%Z ->
  scored (snd (checkForSpeechPause now h)) = [trim (accumulatedTranscription h)].
Proof.
  intros Hlen Hsilent Hstart Hpause Hwords Htime.
  unfold minContentLength in Hwords.
  assert (G : gate h = true).
  { apply gate_true. split; [|exact Hwords].
    intros E. rewrite E, wordCountOf_nil in Hwords. lia. }
  assert (W : (minContentLength <=? wordCountOf (accumulatedTranscription h))
              = true).
  { apply Nat.leb_le. unfold minContentLength, wordCountOf in *.
    pose proof (splitSpace_trim_le (accumulatedTranscription h)). lia. }
  apply Z.ltb_lt in Htime. apply Z.leb_le in Hpause.
  apply Nat.ltb_ge in Hlen.
  unfold checkForSpeechPause. cbv zeta.
  rewrite Htime, W, Hlen, Hsilent, Hstart, Hpause, andb_true_r. cbn [andb].
  destruct (maxContentLength <=? _); now apply processAccumulatedContent_open.
Qed.

Lemma pause_flush_witness :
  scored (snd (checkForSpeechPause 1001 Samples.silentSession)) =
  [str "one two three"].
Proof.
  apply (@pause_flush Samples.silentSession 1001%Z 0%Z).
  - vm_compute. lia.
  - reflexivity.
  - reflexivity.
  - vm_compute. discriminate.
  - vm_compute. lia.
  - vm_compute. reflexivity.
Defined.

(** *** The fallback phrase *)

Lemma fallbackMessage_snoc :
  fallbackMessage =
  str "Speech detected but transcription unavailable" ++ ["."%char].
Proof. reflexivity. Qed.

Lemma includes_app (p w : JsString.t) : includes p (w ++ p) = true.
Proof.
  induction w as [|c w IH].
  - assert (S : forall q, startsWith q q = true).
    { induction q as [|d q IHq]; [reflexivity|].
      simpl. now rewrite Ascii.eqb_refl. }
    destruct p; simpl; [reflexivity|]. rewrite Ascii.eqb_refl, S. reflexivity.
  - cbn [app includes]. rewrite IH. apply orb_true_r.
Qed.

(** The trimmed buffer with the phrase appended ends with the phrase. *)
Lemma trim_with_fallback (buffer : JsString.t) :
  exists w, trim (buffer ++ str " " ++ fallbackMessage) = w ++ fallbackMessage.
Proof.
  unfold trim. rewrite trimStart_app.
  destruct (trimStart buffer) as [|c r].
  - exists []. reflexivity.
  - exists ((c :: r) ++ str " ").
    rewrite fallbackMessage_snoc, !app_assoc.
    rewrite trimEnd_snoc by reflexivity. reflexivity.
Qed.

Lemma gate_with_fallback (buffer : JsString.t) (h : Hook) :
  gate (set_accumulatedTranscription (buffer ++ str " " ++ fallbackMessage) h)
  = true.
Proof.
  apply gate_true.
  change (accumulatedTranscription (set_accumulatedTranscription ?x h)) with x.
  destruct (trim_with_fallback buffer) as [w E].
  rewrite E. split.
  - intros N. apply (f_equal (@length ascii)) in N.
    rewrite length_app in N. cbn in N. lia.
  - unfold wordCountOf, splitSpace.
    rewrite splitOn_length, filter_app, length_app.
    change (length (filter isBlank fallbackMessage)) with 4. lia.
Qed.

(** One call of [handleTranscriptionError]: once the counter is at the
    threshold, it
    appends the phrase only to a buffer that does not contain it; a buffer
    that contains it, or a counter below 3, leaves the buffer as it is and
    calls nothing.  When the phrase is appended, the same handler run hands
    the trimmed buffer, which ends with the phrase, to the scorer, and leaves
    the buffer either cleared or holding the phrase. *)
Lemma fallback_appended_once_and_flushed (h : Hook) :
  let h' := fst (handleTranscriptionError h) in
  let calls := snd (handleTranscriptionError h) in
  let appended := accumulatedTranscription h ++ str " " ++ fallbackMessage in
  (includes fallbackMessage (accumulatedTranscription h) = true ->
     accumulatedTranscription h' = accumulatedTranscription h /\ calls = []) /\
  (S (transcriptionErrorCount h) < maxTranscriptionErrors ->
     accumulatedTranscription h' = accumulatedTranscription h /\ calls = []) /\
  (maxTranscriptionErrors <= S (transcriptionErrorCount h) ->
   includes fallbackMessage (accumulatedTranscription h) = false ->
     scored calls = [trim appended] /\
     includes fallbackMessage (trim appended) = true /\
     (accumulatedTranscription h' = [] \/
      accumulatedTranscription h' = appended)).
Proof.
  cbv zeta. unfold handleTranscriptionError. cbv zeta.
  change (transcriptionErrorCount (set_transcriptionErrorCount ?n h)) with n.
  change (accumulatedTranscription (set_transcriptionErrorCount ?n h))
    with (accumulatedTranscription h).
  repeat split.
  - destruct (_ <=? _); [|reflexivity]. now rewrite H.
  - destruct (_ <=? _); [|reflexivity]. now rewrite H.
  - apply Nat.leb_gt in H. now rewrite H.
  - apply Nat.leb_gt in H. now rewrite H.
  - apply Nat.leb_le in H. rewrite H, H0. cbn [negb].
    now rewrite processAccumulatedContent_open by apply gate_with_fallback.
  - destruct (trim_with_fallback (accumulatedTranscription h)) as [w E].
    rewrite E. apply includes_app.
  - apply Nat.leb_le in H. rewrite H, H0. cbn [negb].
    match goal with
    | |- context [processAccumulatedContent ?x] =>
        destruct (processAccumulatedContent_begin_buffer x) as [B | B];
        unfold processAccumulatedContent
    end; rewrite B; [right | left]; reflexivity.
Qed.

Lemma fallback_appended_once_and_flushed_witness :
  scored (snd (handleTranscriptionError Samples.twoErrors)) =
  [str "hi Speech detected but transcription unavailable."].
Proof.
  apply (fallback_appended_once_and_flushed Samples.twoErrors).
  - vm_compute. lia.
  - reflexivity.
Defined.

(** *** Undersized blobs *)

Lemma existsb_transcribes_app (xs ys : list Call) :
  existsb transcribes xs = false -> existsb transcribes ys = false ->
  existsb transcribes (xs ++ ys) = false.
Proof. intros Hx Hy. now rewrite existsb_app, Hx, Hy. Qed.

(** C9. When the recorded chunks add up to less than 800 bytes,
    [processAudioChunks] returns without awaiting a transcription: no call to
    the transcription capability and none to the scorer, the error counter
    and the buffer as they were; and where the session has its stream and
    recorder, the recorder is recording again, with no chunk kept. *)
Theorem undersized_blob_discarded (h : Hook) :
  (blobSize (audioChunks h) < minBlobSize)%Z ->
  let h' := fst (fst (processAudioChunks_begin h)) in
  let calls := snd (fst (processAudioChunks_begin h)) in
  snd (processAudioChunks_begin h) = false /\
  existsb transcribes calls = false /\
  scored calls = [] /\
  transcriptionErrorCount h' = transcriptionErrorCount h /\
  accumulatedTranscription h' = accumulatedTranscription h /\
  (stream h = true -> mediaRecorder h <> None ->
     mediaRecorder h' = Some Recording /\ audioChunks h' = []).
Proof.
  intros Hsize. cbv zeta.
  split; [|split; [|split; [apply processAudioChunks_begin_scored|]]];
    unfold processAudioChunks_begin; cbv zeta;
    apply Z.ltb_lt in Hsize.
  - destruct (audioChunks h) as [|c cs] eqn:Ec.
    + now destruct (restartRecording (set_isProcessing false h)).
    + change (audioChunks (set_isProcessing true h)) with (audioChunks h).
      rewrite Ec, Hsize.
      destruct (restartRecording _) as [h1 calls1].
      now destruct (restartRecording (set_isProcessing false h1)).
  - destruct (audioChunks h) as [|c cs] eqn:Ec.
    + pose proof (restartRecording_keeps (set_isProcessing false h)) as K.
      destruct (restartRecording (set_isProcessing false h)) as [h1 calls1].
      apply K.
    + change (audioChunks (set_isProcessing true h)) with (audioChunks h).
      rewrite Ec, Hsize.
      match goal with
      | |- context [restartRecording ?x] =>
          pose proof (restartRecording_keeps x) as K1;
          destruct (restartRecording x) as [h1 calls1]
      end.
      pose proof (restartRecording_keeps (set_isProcessing false h1)) as K2.
      destruct (restartRecording (set_isProcessing false h1)) as [h2 calls2].
      cbn [fst snd] in *. apply existsb_transcribes_app; [apply K1 | apply K2].
  - destruct (audioChunks h) as [|c cs] eqn:Ec.
    + pose proof (restartRecording_keeps (set_isProcessing false h)) as K.
      pose proof (restartRecording_resumes (set_isProcessing false h)) as R.
      destruct (restartRecording (set_isProcessing false h)) as [h1 calls1].
      cbn [fst snd] in *. destruct K as [K1 [K2 _]].
      repeat split; try assumption; now apply R.
    + change (audioChunks (set_isProcessing true h)) with (audioChunks h).
      rewrite Ec, Hsize.
      match goal with
      | |- context [restartRecording ?x] =>
          pose proof (restartRecording_keeps x) as K1;
          pose proof (restartRecording_resumes x) as R1;
          destruct (restartRecording x) as [h1 calls1]
      end.
      pose proof (restartRecording_keeps (set_isProcessing false h1)) as K2.
      pose proof (restartRecording_resumes (set_isProcessing false h1)) as R2.
      destruct (restartRecording (set_isProcessing false h1)) as [h2 calls2].
      cbn [fst snd] in *.
      destruct K1 as [B1 [C1 [S1 _]]]. destruct K2 as [B2 [C2 [S2 _]]].
      cbn in B1, C1, S1, B2, C2, S2.
      repeat split; try congruence.
      * apply R2; [cbn; congruence|].
        cbn. destruct (R1 H H0) as [M _]. cbn in M. congruence.
      * apply R2; [cbn; congruence|].
        cbn. destruct (R1 H H0) as [M _]. cbn in M. congruence.
Qed.

Lemma undersized_blob_discarded_witness :
  existsb transcribes (snd (fst (processAudioChunks_begin Samples.smallChunk)))
  = false /\
  mediaRecorder (fst (fst (processAudioChunks_begin Samples.smallChunk)))
  = Some Recording.
Proof.
  assert (S : (blobSize (audioChunks Samples.smallChunk) < minBlobSize)%Z)
    by (vm_compute; reflexivity).
  destruct (undersized_blob_discarded Samples.smallChunk S)
    as [_ [T [_ [_ [_ R]]]]].
  split; [exact T|]. apply R; [reflexivity | discriminate].
Defined.

End HookFacts.

(** ** The edit distance *)

Module EditDistanceFacts.

Lemma levRec_nil_l (b : JsString.t) : levRec [] b = length b.
Proof. reflexivity. Qed.

Lemma levRec_nil_r (a : JsString.t) : levRec a [] = length a.
Proof. destruct a; reflexivity. Qed.

Lemma levRec_cons (x y : ascii) (a b : JsString.t) :
  levRec (x :: a) (y :: b) =
  min3 (levRec a (y :: b) + 1) (levRec (x :: a) b + 1)
       (levRec a b + (if Ascii.eqb x y then 0 else 1)).
Proof. reflexivity. Qed.

Lemma levRec_sym (a b : JsString.t) : levRec a b = levRec b a.
Proof.
  revert b. induction a as [|x a IHa]; intros b.
  - now rewrite levRec_nil_l, levRec_nil_r.
  - induction b as [|y b IHb].
    + now rewrite levRec_nil_l, levRec_nil_r.
    + rewrite !levRec_cons, IHb, (IHa (y :: b)), (IHa b), (Ascii.eqb_sym y x).
      unfold min3. lia.
Qed.

Lemma levRec_upper (a b : JsString.t) :
  levRec a b <= Nat.max (length a) (length b).
Proof.
  revert b. induction a as [|x a IHa]; intros b.
  - rewrite levRec_nil_l. lia.
  - destruct b as [|y b].
    + rewrite levRec_nil_r. lia.
    + rewrite levRec_cons. specialize (IHa b). unfold min3. cbn [length].
      destruct (Ascii.eqb x y); lia.
Qed.

Lemma levRec_lower (a b : JsString.t) :
  length a - length b <= levRec a b /\ length b - length a <= levRec a b.
Proof.
  revert b. induction a as [|x a IHa]; intros b.
  - rewrite levRec_nil_l. cbn [length]. lia.
  - induction b as [|y b IHb].
    + rewrite levRec_nil_r. cbn [length]. lia.
    + rewrite levRec_cons. unfold min3. cbn [length] in *.
      pose proof (IHa (y :: b)) as H1. pose proof (IHa b) as H2.
      cbn [length] in *. destruct (Ascii.eqb x y); lia.
Qed.

Lemma levRec_zero (a b : JsString.t) : levRec a b = 0 <-> a = b.
Proof.
  split.
  - revert b. induction a as [|x a IHa]; intros b H.
    + rewrite levRec_nil_l in H. now destruct b.
    + destruct b as [|y b]; [now rewrite levRec_nil_r in H|].
      rewrite levRec_cons in H. unfold min3 in H.
      destruct (Ascii.eqb x y) eqn:E; [|lia].
      apply Ascii.eqb_eq in E. subst y. f_equal. apply IHa. lia.
  - intros <-. induction a as [|x a IHa]; [reflexivity|].
    rewrite levRec_cons, Ascii.eqb_refl, IHa. unfold min3. lia.
Qed.

(** The rows of the matrix hold the recursive distances between the reversed
    prefixes. *)
Lemma fillRow_levRec (ai : ascii) (ra : JsString.t) (bs rb : JsString.t) :
  fillRow ai bs (map (levRec ra) (reversedPrefixes rb bs)) (levRec (ai :: ra) rb) =
  map (levRec (ai :: ra)) (tl (reversedPrefixes rb bs)).
Proof.
  revert rb. induction bs as [|y bs IH]; intros rb; [reflexivity|].
  cbn [reversedPrefixes map tl].
  specialize (IH (y :: rb)).
  destruct bs as [|z bs]; cbn [reversedPrefixes map tl fillRow] in *.
  - rewrite levRec_cons. reflexivity.
  - rewrite <- levRec_cons. rewrite IH. reflexivity.
Qed.

Lemma nextRow_levRec (ai : ascii) (ra b : JsString.t) :
  nextRow (S (length ra)) ai b (map (levRec ra) (reversedPrefixes [] b)) =
  map (levRec (ai :: ra)) (reversedPrefixes [] b).
Proof.
  unfold nextRow.
  replace (S (length ra)) with (levRec (ai :: ra) []) by apply levRec_nil_r.
  rewrite fillRow_levRec. now destruct b.
Qed.

Lemma fillRows_levRec (a ra b : JsString.t) :
  fillRows a b (length ra) (map (levRec ra) (reversedPrefixes [] b)) =
  map (levRec (rev a ++ ra)) (reversedPrefixes [] b).
Proof.
  revert ra. induction a as [|ai a IH]; intros ra; [reflexivity|].
  cbn [fillRows rev]. rewrite nextRow_levRec.
  change (S (length ra)) with (length (ai :: ra)).
  rewrite IH, <- app_assoc. reflexivity.
Qed.

Lemma reversedPrefixes_lengths (rb bs : JsString.t) :
  map (@length ascii) (reversedPrefixes rb bs) = seq (length rb) (S (length bs)).
Proof.
  revert rb. induction bs as [|y bs IH]; intros rb; [reflexivity|].
  cbn [reversedPrefixes map length seq]. f_equal. apply (IH (y :: rb)).
Qed.

Lemma reversedPrefixes_last (rb bs d : JsString.t) :
  last (reversedPrefixes rb bs) d = rev bs ++ rb.
Proof.
  revert rb. induction bs as [|y bs IH]; intros rb; [reflexivity|].
  cbn [reversedPrefixes rev]. rewrite <- app_assoc. cbn [app].
  rewrite <- (IH (y :: rb)). now destruct bs.
Qed.

Lemma last_map {A B : Type} (f : A -> B) (l : list A) (d : A) :
  l <> [] -> forall e, last (map f l) e = f (last l d).
Proof.
  induction l as [|x l IH]; [congruence|]. intros _ e.
  destruct l as [|y l]; [reflexivity|].
  change (last (map f (x :: y :: l)) e) with (last (map f (y :: l)) e).
  change (last (x :: y :: l) d) with (last (y :: l) d).
  apply IH. discriminate.
Qed.

Lemma levenshtein_levRec (a b : JsString.t) :
  levenshtein a b = levRec (rev a) (rev b).
Proof.
  unfold levenshtein.
  pose proof (reversedPrefixes_lengths [] b) as L. cbn [length] in L.
  rewrite <- L.
  pose proof (fillRows_levRec a [] b) as F. cbn [length] in F.
  change (map (@length ascii) (reversedPrefixes [] b))
    with (map (levRec []) (reversedPrefixes [] b)).
  rewrite F, app_nil_r.
  rewrite (@last_map _ _ (levRec (rev a)) (reversedPrefixes [] b) [])
    by (now destruct b).
  now rewrite reversedPrefixes_last, app_nil_r.
Qed.

End EditDistanceFacts.

(** ** More on the similarity measures *)

Module SimilarityMore.

Import EditDistanceFacts SimilarityFacts.

(** The matrix loop of [calculateStringSimilarity] computes the recursive
    edit distance of the two strings read backwards. *)
Theorem levenshtein_is_recursive_distance (a b : JsString.t) :
  levenshtein a b = levRec (rev a) (rev b).
Proof. apply levenshtein_levRec. Qed.

(** The distance of the matrix does not depend on the order of the strings. *)
Theorem levenshtein_symmetric (a b : JsString.t) :
  levenshtein a b = levenshtein b a.
Proof. rewrite !levenshtein_levRec. apply levRec_sym. Qed.

Lemma rev_inj (a b : JsString.t) : rev a = rev b -> a = b.
Proof.
  intros H. rewrite <- (rev_involutive a), <- (rev_involutive b). now f_equal.
Qed.

Lemma levenshtein_zero (a b : JsString.t) : levenshtein a b = 0 <-> a = b.
Proof.
  rewrite levenshtein_levRec, levRec_zero. split.
  - apply rev_inj.
  - now intros ->.
Qed.

(** The distance is 0 for equal strings and for no others. *)
Theorem levenshtein_zero_iff_equal (a b : JsString.t) :
  levenshtein a b = 0 <-> a = b.
Proof. apply levenshtein_zero. Qed.

(** The distance lies between the difference of the lengths and the larger
    length; against the empty string it is the length. *)
Theorem levenshtein_bounds (a b : JsString.t) :
  length a - length b <= levenshtein a b /\
  length b - length a <= levenshtein a b /\
  levenshtein a b <= Nat.max (length a) (length b) /\
  levenshtein a [] = length a /\
  levenshtein [] b = length b.
Proof.
  rewrite !levenshtein_levRec.
  pose proof (levRec_lower (rev a) (rev b)) as [L1 L2].
  pose proof (levRec_upper (rev a) (rev b)) as U.
  rewrite !length_rev in *. repeat split; try assumption.
  - cbn [rev]. now rewrite levRec_nil_r, length_rev.
  - cbn [rev]. now rewrite levRec_nil_l, length_rev.
Qed.

Local Open Scope Q_scope.

Lemma ratio_range (n d : nat) : (n <= d)%nat -> (0 < d)%nat -> 0 <= ratio n d <= 1.
Proof.
  intros Hn Hd. unfold ratio.
  assert (P : 0 < inject_Z (Z.of_nat d))
    by (change 0 with (inject_Z 0); rewrite <- Zlt_Qlt; lia).
  split.
  - apply Qle_shift_div_l; [exact P|]. rewrite Qmult_0_l.
    change 0 with (inject_Z 0). rewrite <- Zle_Qle. lia.
  - apply Qle_shift_div_r; [exact P|]. rewrite Qmult_1_l.
    rewrite <- Zle_Qle. lia.
Qed.

Lemma ratio_zero_inv (n d : nat) : (0 < d)%nat -> ratio n d == 0 -> n = 0%nat.
Proof.
  intros Hd H. unfold ratio in H.
  assert (P : ~ inject_Z (Z.of_nat d) == 0).
  { change 0 with (inject_Z 0). rewrite inject_Z_injective. lia. }
  assert (E : inject_Z (Z.of_nat n) == 0).
  { rewrite <- (Qmult_div_r (inject_Z (Z.of_nat n)) (inject_Z (Z.of_nat d)) P), H.
    apply Qmult_0_r. }
  change 0 with (inject_Z 0) in E. rewrite inject_Z_injective in E. lia.
Qed.

Lemma normalizedSimilarity_range (a b : JsString.t) :
  0 <= normalizedSimilarity a b <= 1.
Proof.
  unfold normalizedSimilarity.
  destruct (Nat.max (length a) (length b) =? 0)%nat eqn:E.
  - split; discriminate.
  - apply Nat.eqb_neq in E.
    destruct (@ratio_range (levenshtein a b) (Nat.max (length a) (length b)))
      as [R0 R1].
    + rewrite levenshtein_levRec. pose proof (levRec_upper (rev a) (rev b)) as U.
      now rewrite !length_rev in U.
    + lia.
    + split.
      * apply (Qplus_le_l _ _ (ratio (levenshtein a b)
                                      (Nat.max (length a) (length b)))).
        ring_simplify. exact R1.
      * apply (Qplus_le_l _ _ (ratio (levenshtein a b)
                                      (Nat.max (length a) (length b)))).
        ring_simplify.
        apply (Qplus_le_r _ _ 1) in R0. ring_simplify in R0. exact R0.
Qed.

(** [calculateStringSimilarity] returns a value between 0 and 1. *)
Theorem calculateStringSimilarity_range (str1 str2 : JsString.t) :
  0 <= calculateStringSimilarity str1 str2 <= 1.
Proof.
  unfold calculateStringSimilarity.
  destruct (JsString.eqb str1 str2); [split; discriminate|].
  destruct (_ || _); [split; discriminate|].
  apply normalizedSimilarity_range.
Qed.

(** [calculateStringSimilarity] does not depend on the order of its
    arguments. *)
Theorem calculateStringSimilarity_symmetric (str1 str2 : JsString.t) :
  calculateStringSimilarity str1 str2 = calculateStringSimilarity str2 str1.
Proof.
  unfold calculateStringSimilarity, normalizedSimilarity.
  rewrite (eqb_sym str2 str1), (orb_comm (length str2 =? 0)%nat),
          (Nat.max_comm (length (trim (toLowerCase str2)))),
          (levenshtein_levRec (trim (toLowerCase str2))), levRec_sym,
          <- levenshtein_levRec.
  reflexivity.
Qed.

(** [calculateStringSimilarity] is 1 exactly for identical strings and for
    non-empty strings that agree once lower-cased and trimmed. *)
Theorem calculateStringSimilarity_one_iff (str1 str2 : JsString.t) :
  calculateStringSimilarity str1 str2 == 1 <->
  str1 = str2 \/
  (str1 <> [] /\ str2 <> [] /\
   trim (toLowerCase str1) = trim (toLowerCase str2)).
Proof.
  unfold calculateStringSimilarity.
  destruct (JsString.eqb str1 str2) eqn:E.
  - apply eqb_eq in E. split; [now left | reflexivity].
  - apply eqb_neq in E.
    destruct str1 as [|c s1], str2 as [|d s2]; cbn [length Nat.eqb orb].
    + congruence.
    + split; [discriminate | intros [H | [H _]]; congruence].
    + split; [discriminate | intros [H | [_ [H _]]]; congruence].
    + split.
      * intros H. right. repeat split; try discriminate.
        unfold normalizedSimilarity in H.
        destruct (Nat.max _ _ =? 0)%nat eqn:M.
        -- apply Nat.eqb_eq in M.
           destruct (trim (toLowerCase (c :: s1))),
                    (trim (toLowerCase (d :: s2))); cbn [length] in M;
             try lia; reflexivity.
        -- apply Nat.eqb_neq in M. apply levenshtein_zero.
           apply (@ratio_zero_inv _ (Nat.max
                    (length (trim (toLowerCase (c :: s1))))
                    (length (trim (toLowerCase (d :: s2)))))); [lia|].
           set (r := ratio _ _) in *.
           assert (R : r == 1 - (1 - r)) by ring.
           rewrite R, H. reflexivity.
      * intros [H | [_ [_ H]]]; [congruence|].
        rewrite H. apply normalizedSimilarity_same.
Qed.

Lemma countMatching_le (words1 words2 : list JsString.t) :
  (countMatching words1 words2 <= length words1)%nat.
Proof.
  induction words1 as [|w ws IH]; [apply Nat.le_refl|].
  cbn [countMatching length]. destruct (includesWord words2 w); lia.
Qed.

Lemma splitRuns_nonempty (inrun : bool) (s : JsString.t) :
  (0 < length (splitRuns inrun s))%nat.
Proof.
  revert inrun. induction s as [|c s IH]; intros inrun; cbn [splitRuns].
  - cbn. lia.
  - destruct (isSpace c); [destruct inrun; [apply IH | cbn; lia]|].
    destruct (splitRuns false s); cbn; lia.
Qed.

(** [calculateSimpleStringSimilarity] returns a value between 0 and 1. *)
Theorem calculateSimpleStringSimilarity_range (str1 str2 : JsString.t) :
  0 <= calculateSimpleStringSimilarity str1 str2 <= 1.
Proof.
  unfold calculateSimpleStringSimilarity.
  destruct (JsString.eqb _ _); [split; discriminate|].
  destruct (_ || _); [split; discriminate|].
  apply ratio_range.
  - pose proof (countMatching_le (splitWs (toLowerCase str1))
                                 (splitWs (toLowerCase str2))). lia.
  - pose proof (splitRuns_nonempty false (toLowerCase str1)).
    unfold splitWs. lia.
Qed.

(** [isSimilarToExisting]: a blank text is similar to nothing, nothing is
    similar to an empty list, a text stays similar when texts are added, and
    with a threshold of at most 1 a text that is not blank is similar to any
    list holding it up to case. *)
Theorem isSimilarToExisting_cases (text : JsString.t) (threshold : Q) :
  (trim text = [] ->
     forall existingTexts, isSimilarToExisting text existingTexts threshold = false) /\
  isSimilarToExisting text [] threshold = false /\
  (forall xs ys,
     isSimilarToExisting text xs threshold = true ->
     isSimilarToExisting text (xs ++ ys) threshold = true /\
     isSimilarToExisting text (ys ++ xs) threshold = true) /\
  (threshold <= 1 -> trim text <> [] ->
     forall existingText existingTexts,
       In existingText existingTexts ->
       toLowerCase existingText = toLowerCase text ->
       isSimilarToExisting text existingTexts threshold = true).
Proof.
  unfold isSimilarToExisting. rewrite eqb_nil. repeat split.
  - intros H xs. now rewrite H.
  - now destruct (trim text).
  - destruct (trim text); [discriminate|].
    rewrite existsb_app, H. reflexivity.
  - destruct (trim text); [discriminate|].
    rewrite existsb_app, H. apply orb_true_r.
  - intros Ht Hne e es Hin He.
    destruct (trim text); [congruence|].
    apply existsb_exists. exists e. split; [exact Hin|].
    apply Qle_bool_iff.
    rewrite (calculateStringSimilarity_fold text e) by congruence. exact Ht.
Qed.

Lemma isSimilarToExisting_cases_witness :
  isSimilarToExisting (str "Budget due Friday")
                      [str "Call Bob"; str "budget due friday"] (8 # 10) = true.
Proof.
  apply (proj2 (proj2 (proj2 (isSimilarToExisting_cases
                                (str "Budget due Friday") (8 # 10)))))
    with (existingText := str "budget due friday").
  - discriminate.
  - discriminate.
  - right. now left.
  - reflexivity.
Defined.

End SimilarityMore.

(** ** More on the content quality *)

Module ContentAnalysisMore.

Import ContentAnalysisFacts.

Local Open Scope Q_scope.

Lemma infoIndicators_nonNegative : nonNegative infoIndicators.
Proof. repeat constructor; discriminate. Qed.

Lemma indicatorsWithoutProperNouns_nonNegative :
  nonNegative indicatorsWithoutProperNouns.
Proof. repeat constructor; discriminate. Qed.

(** Indicators only add to the score, and at most their weights. *)
Lemma applyIndicators_range (inds : list Indicator) (s : JsString.t)
                            (acc : Q * list string) :
  nonNegative inds ->
  fst acc <= fst (applyIndicators inds s acc) <= fst acc + totalWeight inds.
Proof.
  intros H. revert acc. induction H as [|i inds Hi _ IH]; intros acc.
  - cbn [applyIndicators totalWeight fold_right]. split.
    + apply Qle_refl.
    + rewrite Qplus_0_r. apply Qle_refl.
  - cbn [applyIndicators totalWeight fold_right].
    fold (totalWeight inds).
    destruct (test (pattern i) s).
    + destruct (IH (fst acc + weight i, snd acc ++ [name i])) as [L U].
      cbn [fst] in L, U. split.
      * apply Qle_trans with (fst acc + weight i); [|exact L].
        rewrite <- (Qplus_0_r (fst acc)) at 1. now apply Qplus_le_r.
      * rewrite Qplus_assoc. exact U.
    + destruct (IH acc) as [L U]. split; [exact L|].
      apply Qle_trans with (fst acc + totalWeight inds); [exact U|].
      apply Qplus_le_r.
      rewrite <- (Qplus_0_l (totalWeight inds)) at 1. now apply Qplus_le_l.
Qed.

Lemma density_nonNegative (n d : nat) :
  0 <= inject_Z (Z.of_nat n) / inject_Z (Z.of_nat d) * (1 # 10).
Proof.
  apply Qmult_le_0_compat; [|discriminate].
  unfold Qdiv. apply Qmult_le_0_compat.
  - change 0 with (inject_Z 0). rewrite <- Zle_Qle. lia.
  - apply Qinv_le_0_compat. change 0 with (inject_Z 0).
    rewrite <- Zle_Qle. lia.
Qed.

Lemma lengthAdjust_upper (wordCount : nat) (s : Q) :
  lengthAdjust wordCount s <= s + (5 # 100).
Proof.
  unfold lengthAdjust. destruct (_ && _); [apply Qle_refl|].
  destruct (_ <? _)%nat.
  - unfold Qminus. apply Qplus_le_r. discriminate.
  - rewrite <- (Qplus_0_r s) at 1. apply Qplus_le_r. discriminate.
Qed.

Lemma lengthAdjust_lower (wordCount : nat) (s : Q) :
  (wordCount <= 150)%nat -> s <= lengthAdjust wordCount s.
Proof.
  intros H. unfold lengthAdjust. destruct (_ && _).
  - rewrite <- (Qplus_0_r s) at 1. apply Qplus_le_r. discriminate.
  - apply Nat.ltb_ge in H. rewrite H. apply Qle_refl.
Qed.

Lemma questionAdjust_upper (text : JsString.t) (s : Q) :
  questionAdjust text s <= s.
Proof.
  unfold questionAdjust. destruct (test questionPattern text);
    [|apply Qle_refl].
  unfold Qminus. rewrite <- (Qplus_0_r s) at 2. apply Qplus_le_r. discriminate.
Qed.

Lemma rawScore_upper (text : JsString.t) :
  rawScore indicatorsWithoutProperNouns text <= 93 # 100.
Proof.
  unfold rawScore. cbv zeta.
  eapply Qle_trans; [apply questionAdjust_upper|].
  eapply Qle_trans; [apply lengthAdjust_upper|].
  destruct (applyIndicators_range text (15 # 100, [])
              indicatorsWithoutProperNouns_nonNegative) as [_ U].
  cbn [fst] in U.
  set (found := fst (applyIndicators _ _ _)) in *.
  pose proof (density_nonNegative (countFillers text)
                                  (length (splitWs text))) as D.
  set (penalty := _ / _ * _) in *.
  assert (T : totalWeight indicatorsWithoutProperNouns <= 73 # 100)
    by (apply Qle_bool_iff; vm_compute; reflexivity).
  apply Qle_trans with ((15 # 100) + (73 # 100) - 0 + (5 # 100));
    [|discriminate].
  apply Qplus_le_l. unfold Qminus. apply Qplus_le_compat.
  - apply Qle_trans with ((15 # 100) + totalWeight indicatorsWithoutProperNouns);
      [exact U | now apply Qplus_le_r].
  - now apply Qopp_le_compat.
Qed.

Lemma clamped_rawScore_upper (text : JsString.t) :
  Qmin 1 (rawScore infoIndicators (trim (toLowerCase text))) <= 93 # 100.
Proof.
  eapply Qle_trans; [apply Q.le_min_r|].
  unfold rawScore.
  rewrite !applyIndicators_without_properNouns
    by apply properNouns_never_found.
  apply rawScore_upper.
Qed.

(** The score is always strictly below 1: the indicator that would bring it
    there never matches, so the upper end of the clamp is never reached and
    the score of a text of 3 words or more is the raw score, or 0 when that
    is negative. *)
Theorem analyzeContentQuality_score_below_one (text : JsString.t) :
  score (analyzeContentQuality text) < 1 /\
  (trim text <> [] ->
   (3 <= length (splitWs (trim (toLowerCase text))))%nat ->
   score (analyzeContentQuality text) ==
   Qmax 0 (rawScore infoIndicators (trim (toLowerCase text)))).
Proof.
  unfold analyzeContentQuality, analyzeWith. rewrite eqb_nil. split.
  - destruct (trim text); [reflexivity|].
    destruct (_ <? 3)%nat; [reflexivity|].
    cbn [score]. unfold clamp.
    apply Qle_lt_trans with (93 # 100); [|reflexivity].
    apply Q.max_lub; [discriminate | apply clamped_rawScore_upper].
  - intros Hne W. destruct (trim text); [congruence|].
    apply Nat.ltb_ge in W. rewrite W. cbn [score]. unfold clamp.
    assert (M : Qmin 1 (rawScore infoIndicators (trim (toLowerCase text)))
                == rawScore infoIndicators (trim (toLowerCase text))).
    { apply Q.min_r. apply Qle_trans with (93 # 100); [|discriminate].
      unfold rawScore.
      rewrite !applyIndicators_without_properNouns
        by apply properNouns_never_found.
      apply rawScore_upper. }
    now rewrite M.
Qed.

Lemma analyzeContentQuality_score_below_one_witness :
  score (analyzeContentQuality (str "ship it friday")) ==
  Qmax 0 (rawScore infoIndicators (str "ship it friday")).
Proof.
  apply (proj2 (analyzeContentQuality_score_below_one (str "ship it friday"))).
  - discriminate.
  - vm_compute. lia.
Defined.

(** White space around the text plays no part in the analysis. *)
Theorem analyzeContentQuality_ignores_outer_space (text : JsString.t) :
  analyzeContentQuality (trim text) = analyzeContentQuality text.
Proof.
  unfold analyzeContentQuality, analyzeWith.
  now rewrite trim_idempotent, (trim_lower (trim text)), trim_idempotent,
              <- trim_lower.
Qed.

(** A text of 3 to 150 words with no filler and no question pattern is
    noteworthy, with a score of at least 0.15. *)
Theorem clean_text_is_noteworthy (text : JsString.t) :
  let normalizedText := trim (toLowerCase text) in
  let wordCount := length (splitWs normalizedText) in
  trim text <> [] ->
  (3 <= wordCount <= 150)%nat ->
  countFillers normalizedText = 0%nat ->
  test questionPattern normalizedText = false ->
  isNoteworthy (analyzeContentQuality text) = true /\
  threshold <= score (analyzeContentQuality text).
Proof.
  cbv zeta. intros Hne [W3 W150] Hf Hq.
  unfold analyzeContentQuality, analyzeWith. rewrite eqb_nil.
  destruct (trim text) as [|c r]; [congruence|].
  apply Nat.ltb_ge in W3. rewrite W3. cbn [score isNoteworthy].
  assert (S : threshold <= clamp (rawScore infoIndicators (trim (toLowerCase text)))).
  { unfold clamp. eapply Qle_trans; [|apply Q.le_max_r].
    apply Q.min_glb; [discriminate|].
    unfold rawScore, questionAdjust. cbv zeta. rewrite Hq, Hf.
    eapply Qle_trans; [|apply lengthAdjust_lower; exact W150].
    destruct (applyIndicators_range (trim (toLowerCase text)) (15 # 100, [])
                infoIndicators_nonNegative) as [L _].
    cbn [fst] in L. unfold threshold.
    set (found := fst (applyIndicators _ _ _)) in *.
    cbn [Z.of_nat inject_Z]. unfold Qdiv. rewrite !Qmult_0_l.
    unfold Qminus. change (- 0) with 0. now rewrite Qplus_0_r. }
  split; [|exact S]. now apply Qle_bool_iff.
Qed.

Lemma clean_text_is_noteworthy_witness :
  isNoteworthy (analyzeContentQuality (str "ship it friday")) = true.
Proof.
  apply (clean_text_is_noteworthy (str "ship it friday")).
  - discriminate.
  - vm_compute. lia.
  - reflexivity.
  - reflexivity.
Defined.

End ContentAnalysisMore.

(** ** More on the hook *)

Module HookMore.

Import Hook HookFacts.

(** *** What a flush leaves alone *)

Lemma processAccumulatedContent_begin_sameCapture (h : Hook) :
  let h' := fst (fst (processAccumulatedContent_begin h)) in
  sameCapture h h' /\
  lastProcessingTime h' = lastProcessingTime h /\
  silenceStartTime h' = silenceStartTime h /\
  processedSummaries h' = processedSummaries h.
Proof.
  cbv zeta. unfold processAccumulatedContent_begin, generateTopicalNote_begin.
  cbv zeta. unfold sameCapture. split_ifs; repeat split.
Qed.

Lemma processAccumulatedContent_sameCapture (h : Hook) :
  sameCapture h (fst (processAccumulatedContent h)).
Proof. apply processAccumulatedContent_begin_sameCapture. Qed.

Lemma processAccumulatedContent_no_recorder_call (h : Hook) :
  existsb isRecorderCall (snd (processAccumulatedContent h)) = false.
Proof.
  unfold processAccumulatedContent, processAccumulatedContent_begin,
         generateTopicalNote_begin.
  cbv zeta. split_ifs; reflexivity.
Qed.

Lemma handleTranscriptionError_capture (h : Hook) :
  let h' := fst (handleTranscriptionError h) in
  mediaRecorder h' = mediaRecorder h /\ stream h' = stream h /\
  audioLevelHistory h' = audioLevelHistory h /\
  existsb isRecorderCall (snd (handleTranscriptionError h)) = false.
Proof.
  cbv zeta. unfold handleTranscriptionError. cbv zeta.
  split_ifs; try (repeat split; reflexivity).
  match goal with
  | |- context [processAccumulatedContent ?x] =>
      pose proof (processAccumulatedContent_sameCapture x) as [R [S [_ [_ [H _]]]]];
      pose proof (processAccumulatedContent_no_recorder_call x) as N
  end.
  repeat split; assumption.
Qed.

Lemma transcriptionSettled_capture (result : Transcription) (now : Z) (h : Hook) :
  let h' := fst (transcriptionSettled result now h) in
  mediaRecorder h' = mediaRecorder h /\ stream h' = stream h /\
  audioLevelHistory h' = audioLevelHistory h /\
  existsb isRecorderCall (snd (transcriptionSettled result now h)) = false.
Proof.
  cbv zeta. unfold transcriptionSettled.
  destruct result as [text|]; [|apply handleTranscriptionError_capture].
  cbv zeta. destruct (negb (isEmpty text)).
  - destruct (_ && _); [|repeat split; reflexivity].
    match goal with
    | |- context [processAccumulatedContent ?x] =>
        pose proof (processAccumulatedContent_sameCapture x)
          as [R [S [_ [_ [H _]]]]];
        pose proof (processAccumulatedContent_no_recorder_call x) as N
    end.
    repeat split; assumption.
  - apply (handleTranscriptionError_capture (set_transcriptionErrorCount 0 h)).
Qed.

Lemma restartRecording_history (h : Hook) :
  audioLevelHistory (fst (restartRecording h)) = audioLevelHistory h.
Proof.
  unfold restartRecording, createAndStartMediaRecorder.
  destruct h as [? ? ? ? ? [[|]|] ? ? ? ? ? ? [|] ? ? ? ? ? ?]; reflexivity.
Qed.

(** *** The level history *)

Lemma checkForSpeechPause_history (now : Z) (h : Hook) :
  audioLevelHistory (fst (checkForSpeechPause now h)) = audioLevelHistory h.
Proof.
  unfold checkForSpeechPause. cbv zeta.
  destruct (silenceStartTime h); split_ifs;
    try reflexivity; apply processAccumulatedContent_sameCapture.
Qed.

Lemma sampleAudioLevel_history (average : Q) (now : Z) (h : Hook) :
  length (audioLevelHistory h) <= audioLevelHistorySize ->
  length (audioLevelHistory (fst (sampleAudioLevel average now h)))
  <= audioLevelHistorySize.
Proof.
  intros H. unfold sampleAudioLevel. cbv zeta.
  destruct (_ || _); [exact H|].
  match goal with
  | |- context [checkForSpeechPause now ?x] =>
      pose proof (checkForSpeechPause_history now x) as C;
      destruct (checkForSpeechPause now x) as [h' calls]
  end.
  cbn [fst] in *.
  change (audioLevelHistory (set_animationFrame true h'))
    with (audioLevelHistory h').
  rewrite C.
  change (audioLevelHistory (set_audioLevelHistory ?l _)) with l.
  change (audioLevelHistory (set_audioLevel average h))
    with (audioLevelHistory h).
  unfold audioLevelHistorySize in *.
  destruct (20 <? _) eqn:E.
  - destruct (audioLevelHistory h ++ [average]) as [|x l] eqn:A;
      [cbn; lia|].
    apply (f_equal (@length Q)) in A. rewrite length_app in A.
    cbn [length tl] in *. lia.
  - apply Nat.ltb_ge in E. exact E.
Qed.

Lemma step_history (h : Hook) (e : Event) :
  length (audioLevelHistory h) <= audioLevelHistorySize ->
  length (audioLevelHistory (fst (step h e))) <= audioLevelHistorySize.
Proof.
  intros H. destruct e; cbn [step fst].
  - unfold startRecording, createAndStartMediaRecorder, resetSession,
           setupAudioLevelMonitoring.
    unfold audioLevelHistorySize.
    destruct granted, monitoring; cbv; lia.
  - unfold stopRecording, stopRecording_begin.
    assert (R : audioLevelHistory (fst (releaseSession h)) = audioLevelHistory h).
    { unfold releaseSession. cbv zeta. reflexivity. }
    destruct (releaseSession h) as [h1 calls1]. cbn [fst] in R.
    destruct (negb _); [|cbn [fst]; now rewrite <- R in H].
    pose proof (processAccumulatedContent_begin_sameCapture h1)
      as [[_ [_ [_ [_ [P _]]]]] _].
    destruct (processAccumulatedContent_begin h1) as [[h2 calls2] [|]];
      cbn [fst] in *.
    + now rewrite P, R.
    + change (audioLevelHistory (set_audioLevel 0%Q h2))
        with (audioLevelHistory h2). now rewrite P, R.
  - now apply sampleAudioLevel_history.
  - unfold onInterval. destruct (processingTimeout h); [|exact H].
    destruct (mediaRecorder h) as [[|]|]; exact H.
  - unfold onDataAvailable. destruct (0 <? size)%Z; exact H.
  - unfold processAudioChunks_begin. cbv zeta.
    destruct (audioChunks h) as [|c cs].
    + pose proof (restartRecording_history (set_isProcessing false h)) as R.
      destruct (restartRecording (set_isProcessing false h)) as [h1 calls1].
      cbn [fst] in *. now rewrite R.
    + destruct (_ <? _)%Z; [|exact H].
      match goal with
      | |- context [restartRecording ?x] =>
          pose proof (restartRecording_history x) as R1;
          destruct (restartRecording x) as [h1 calls1]
      end.
      pose proof (restartRecording_history (set_isProcessing false h1)) as R2.
      destruct (restartRecording (set_isProcessing false h1)) as [h2 calls2].
      cbn [fst] in *. rewrite R2. cbn. now rewrite R1.
  - unfold processAudioChunks_resume.
    pose proof (transcriptionSettled_capture result now h) as [_ [_ [T _]]].
    destruct (transcriptionSettled result now h) as [h1 calls1].
    pose proof (restartRecording_history (set_isProcessing false h1)) as R.
    destruct (restartRecording (set_isProcessing false h1)) as [h2 calls2].
    cbn [fst] in *. rewrite R. cbn. now rewrite T.
  - unfold processAccumulatedContent_resume, generateTopicalNote_resume,
           processAccumulatedContent_finish.
    destruct answer as [s|]; cbv zeta; split_ifs; exact H.
Qed.

(** The level history never holds more than 20 samples: a run that starts
    with at most 20 keeps at most 20. *)
Theorem history_stays_bounded (es : list Event) (h : Hook) :
  length (audioLevelHistory h) <= audioLevelHistorySize ->
  length (audioLevelHistory (fst (runEvents h es))) <= audioLevelHistorySize.
Proof.
  revert h. induction es as [|e es IH]; intros h H; [exact H|].
  cbn [runEvents]. pose proof (step_history h e H) as S.
  destruct (step h e) as [h1 calls1]. specialize (IH h1 S).
  destruct (runEvents h1 es) as [h2 calls2]. exact IH.
Qed.

Lemma history_stays_bounded_witness :
  length (audioLevelHistory
            (fst (runEvents initial
                    [Start true true 0; Frame (1 # 2) 16; Frame (1 # 3) 33])))
  <= audioLevelHistorySize.
Proof.
  apply history_stays_bounded. cbn. lia.
Defined.

(** *** The rules of [checkForSpeechPause] *)

(** Within 800 ms of the last note a frame flushes nothing, by the pause rule
    or by the length rule: no call, the buffer and the clock as they were. *)
Theorem no_flush_within_minimum_interval (now : Z) (h : Hook) :
  (now - lastProcessingTime h <= minTimeBetweenNotes)%Z ->
  snd (checkForSpeechPause now h) = [] /\
  accumulatedTranscription (fst (checkForSpeechPause now h)) =
  accumulatedTranscription h /\
  lastProcessingTime (fst (checkForSpeechPause now h)) = lastProcessingTime h.
Proof.
  intros H. apply Z.ltb_ge in H.
  unfold checkForSpeechPause. cbv zeta. rewrite H, !andb_false_r.
  destruct (silenceStartTime h); split_ifs; repeat split.
Qed.

Lemma no_flush_within_minimum_interval_witness :
  snd (checkForSpeechPause 900 Samples.silentSession) = [].
Proof.
  apply (@no_flush_within_minimum_interval 900%Z Samples.silentSession).
  vm_compute. discriminate.
Defined.

(** The length rule: with 150 words or more in the trimmed buffer and more
    than 800 ms since the last note, a frame hands the trimmed buffer to the
    scorer whatever the audio levels and the silence so far. *)
Theorem length_rule_flushes (now : Z) (h : Hook) :
  maxContentLength <= wordCountOf (trim (accumulatedTranscription h)) ->
  (minTimeBetweenNotes < now - lastProcessingTime h)%Z ->
  scored (snd (checkForSpeechPause now h)) = [trim (accumulatedTranscription h)].
Proof.
  intros Hw Ht. unfold maxContentLength in Hw.
  assert (G : gate h = true).
  { apply gate_true. split; [|lia].
    intros E. rewrite E, wordCountOf_nil in Hw. lia. }
  assert (W : (maxContentLength <=? wordCountOf (accumulatedTranscription h))
              = true).
  { apply Nat.leb_le. unfold maxContentLength, wordCountOf in *.
    pose proof (splitSpace_trim_le (accumulatedTranscription h)). lia. }
  apply Z.ltb_lt in Ht.
  unfold checkForSpeechPause. cbv zeta. rewrite W, Ht. cbn [andb].
  now apply processAccumulatedContent_open.
Qed.

Lemma length_rule_flushes_witness :
  let h := set_accumulatedTranscription (repeat "a"%char 1 ++
             concat (repeat (str " b") 149)) initial in
  scored (snd (checkForSpeechPause 1000 h)) = [trim (accumulatedTranscription h)].
Proof.
  cbv zeta. apply length_rule_flushes.
  - vm_compute. lia.
  - vm_compute. reflexivity.
Defined.

(** A frame whose last 5 samples are not all silent never flushes by the
    pause rule: below 150 buffered words it calls nothing and forgets the
    start of the silence. *)
Lemma loud_frame_resets_silence (now : Z) (h : Hook) :
  5 <= length (audioLevelHistory h) ->
  isCurrentlySilent h = false ->
  wordCountOf (accumulatedTranscription h) < maxContentLength ->
  checkForSpeechPause now h = (set_silenceStartTime None h, []).
Proof.
  intros Hl Hs Hw. apply Nat.leb_gt in Hw. apply Nat.ltb_ge in Hl.
  unfold checkForSpeechPause. cbv zeta. now rewrite Hw, Hl, Hs.
Qed.

Lemma loud_frame_resets_silence_witness :
  silenceStartTime
    (fst (checkForSpeechPause 1000
            (set_audioLevelHistory (repeat (1 # 2)%Q 5) Samples.silentSession)))
  = None.
Proof.
  rewrite loud_frame_resets_silence; [reflexivity | | | ].
  - cbn. lia.
  - reflexivity.
  - vm_compute. lia.
Defined.

(** *** Transcription results *)

(** An empty transcription result sets the error counter to exactly 1,
    whatever it was: the counter is reset before the result is looked at.
    Nothing is appended and nothing is called, so empty results alone never
    bring the fallback phrase. *)
Lemma empty_transcription_counts_one (now : Z) (h : Hook) :
  transcriptionSettled (TranscribeReturns []) now h =
  (set_transcriptionErrorCount 1 h, []).
Proof. reflexivity. Qed.

(** A transcription that arrives within 3000 ms of the last note is appended
    after one space, the error counter is reset, and nothing is flushed. *)
Lemma fresh_transcription_is_appended (text : JsString.t) (now : Z) (h : Hook) :
  text <> [] ->
  (now - lastProcessingTime h <= staleAfter)%Z ->
  transcriptionSettled (TranscribeReturns text) now h =
  (set_accumulatedTranscription
     (accumulatedTranscription h ++ str " " ++ text)
     (set_transcriptionErrorCount 0 h), []).
Proof.
  intros Hne Ht. apply isEmpty_false in Hne. apply Z.ltb_ge in Ht.
  unfold transcriptionSettled. cbv zeta. rewrite Hne. cbn [negb].
  change (lastProcessingTime (set_accumulatedTranscription _ _))
    with (lastProcessingTime h).
  now rewrite Ht.
Qed.

Lemma fresh_transcription_is_appended_witness :
  accumulatedTranscription
    (fst (transcriptionSettled (TranscribeReturns (str "hello")) 100
                               Samples.twoErrors))
  = str " hi hello".
Proof.
  rewrite fresh_transcription_is_appended; [reflexivity | discriminate |].
  vm_compute. discriminate.
Defined.

(** The staleness rule: a transcription that arrives more than 3000 ms after
    the last note, and brings the trimmed buffer to 3 words or more, is
    flushed with the buffer at once. *)
Theorem stale_transcription_flushes (text : JsString.t) (now : Z) (h : Hook) :
  let appended := accumulatedTranscription h ++ str " " ++ text in
  text <> [] ->
  (staleAfter < now - lastProcessingTime h)%Z ->
  minContentLength <= wordCountOf (trim appended) ->
  scored (snd (transcriptionSettled (TranscribeReturns text) now h)) =
  [trim appended].
Proof.
  cbv zeta. intros Hne Ht Hw. unfold minContentLength in Hw.
  apply isEmpty_false in Hne. apply Z.ltb_lt in Ht.
  assert (N : trim (accumulatedTranscription h ++ str " " ++ text) <> []).
  { intros E. rewrite E, wordCountOf_nil in Hw. lia. }
  unfold transcriptionSettled. cbv zeta. rewrite Hne. cbn [negb].
  change (lastProcessingTime (set_accumulatedTranscription _ _))
    with (lastProcessingTime h).
  change (accumulatedTranscription (set_accumulatedTranscription ?x _)) with x.
  change (accumulatedTranscription (set_transcriptionErrorCount 0 h))
    with (accumulatedTranscription h).
  rewrite Ht. cbn [andb].
  replace (0 <? length (trim (accumulatedTranscription h ++ str " " ++ text)))
    with true
    by (symmetry; apply Nat.ltb_lt;
        destruct (trim (accumulatedTranscription h ++ str " " ++ text));
        [congruence | cbn; lia]).
  rewrite processAccumulatedContent_open; [reflexivity|].
  apply gate_true. split; assumption.
Qed.

Lemma stale_transcription_flushes_witness :
  scored (snd (transcriptionSettled
                 (TranscribeReturns (str "budget is due")) 5000 initial))
  = [str "budget is due"].
Proof.
  apply (@stale_transcription_flushes (str "budget is due") 5000%Z initial).
  - discriminate.
  - vm_compute. reflexivity.
  - vm_compute. lia.
Defined.

(** After every transcription, whatever its outcome, a session that has its
    stream and its recorder is recording again, with no chunk kept. *)
Theorem recording_resumes_after_transcription
        (result : Transcription) (now : Z) (h : Hook) :
  stream h = true -> mediaRecorder h <> None ->
  mediaRecorder (fst (processAudioChunks_resume result now h)) = Some Recording /\
  audioChunks (fst (processAudioChunks_resume result now h)) = [].
Proof.
  intros Hs Hr. unfold processAudioChunks_resume.
  pose proof (transcriptionSettled_capture result now h) as [R [S _]].
  destruct (transcriptionSettled result now h) as [h1 calls1]. cbn [fst] in *.
  pose proof (restartRecording_resumes (set_isProcessing false h1)) as P.
  destruct (restartRecording (set_isProcessing false h1)) as [h2 calls2].
  cbn [fst] in *. apply P; cbn; congruence.
Qed.

Lemma recording_resumes_after_transcription_witness :
  mediaRecorder (fst (processAudioChunks_resume TranscribeThrows 100
                                                Samples.smallChunk))
  = Some Recording.
Proof.
  apply (@recording_resumes_after_transcription TranscribeThrows 100%Z
                                                Samples.smallChunk).
  - reflexivity.
  - discriminate.
Defined.

(** *** After the stop *)

Lemma stopRecording_released (h : Hook) :
  mediaRecorder (fst (stopRecording h)) = None /\
  stream (fst (stopRecording h)) = false.
Proof.
  unfold stopRecording, stopRecording_begin.
  assert (R : mediaRecorder (fst (releaseSession h)) = None /\
              stream (fst (releaseSession h)) = false).
  { unfold releaseSession. cbv zeta. split; reflexivity. }
  destruct (releaseSession h) as [h1 calls1]. cbn [fst] in R.
  destruct (negb _); [|exact R].
  pose proof (processAccumulatedContent_begin_sameCapture h1)
    as [[P1 [P2 _]] _].
  destruct (processAccumulatedContent_begin h1) as [[h2 calls2] [|]];
    cbn [fst] in *; split; cbn; try congruence;
    try (rewrite P1; apply R); try (rewrite P2; apply R).
Qed.

(** Once the session is stopped, a transcription that still arrives never
    restarts the recorder: no recorder is there afterwards and no call goes
    to the platform recorder. *)
Theorem no_restart_after_stop (result : Transcription) (now : Z) (h : Hook) :
  let stopped := fst (stopRecording h) in
  mediaRecorder (fst (processAudioChunks_resume result now stopped)) = None /\
  stream (fst (processAudioChunks_resume result now stopped)) = false /\
  existsb isRecorderCall (snd (processAudioChunks_resume result now stopped))
  = false.
Proof.
  cbv zeta. destruct (stopRecording_released h) as [R S].
  set (stopped := fst (stopRecording h)) in *.
  unfold processAudioChunks_resume.
  pose proof (transcriptionSettled_capture result now stopped) as [R1 [S1 [_ N]]].
  destruct (transcriptionSettled result now stopped) as [h1 calls1].
  cbn [fst snd] in *.
  unfold restartRecording.
  change (stream (set_isProcessing false h1)) with (stream h1).
  rewrite S1, S. cbn [fst snd].
  change (mediaRecorder (set_isProcessing false h1)) with (mediaRecorder h1).
  change (stream (set_isProcessing false h1)) with (stream h1).
  rewrite R1, R, S1, S, app_nil_r. repeat split. exact N.
Qed.

(** Once the session is stopped, an animation frame does nothing: no call,
    and the buffer and the level history stay as the stop left them. *)
Theorem frames_inert_after_stop (average : Q) (now : Z) (h : Hook) :
  let stopped := fst (stopRecording h) in
  snd (sampleAudioLevel average now stopped) = [] /\
  accumulatedTranscription (fst (sampleAudioLevel average now stopped)) =
  accumulatedTranscription stopped /\
  audioLevelHistory (fst (sampleAudioLevel average now stopped)) =
  audioLevelHistory stopped.
Proof.
  cbv zeta. destruct (stopRecording_released h) as [R _].
  unfold sampleAudioLevel. cbv zeta. rewrite R. cbn [isNone].
  rewrite orb_true_r. repeat split.
Qed.

(** *** The generated note *)

Lemma simple_similarity_self (s : JsString.t) :
  calculateSimpleStringSimilarity s s = 1%Q.
Proof. unfold calculateSimpleStringSimilarity. now rewrite eqb_refl. Qed.

(** A generated summary whose trimmed text was already emitted in the session
    gives no note and leaves the set of summaries as it was. *)
Theorem repeated_summary_gives_no_note (summaryText : JsString.t) (h : Hook) :
  In (trim summaryText) (processedSummaries h) ->
  snd (generateTopicalNote_resume (Some summaryText) h) = [] /\
  processedSummaries (fst (generateTopicalNote_resume (Some summaryText) h)) =
  processedSummaries h.
Proof.
  intros H. unfold generateTopicalNote_resume.
  destruct (includes noNoteworthyContent summaryText); [split; reflexivity|].
  replace (existsb _ (processedSummaries h)) with true; [split; reflexivity|].
  symmetry. apply existsb_exists. exists (trim summaryText). split; [exact H|].
  now rewrite simple_similarity_self.
Qed.

Lemma repeated_summary_gives_no_note_witness :
  snd (generateTopicalNote_resume
         (Some (str " Budget is due. "))
         (set_processedSummaries [str "Budget is due."] initial)) = [].
Proof.
  apply repeated_summary_gives_no_note. now left.
Defined.

Lemma addSummary_NoDup (x : JsString.t) (xs : list JsString.t) :
  NoDup xs -> NoDup (addSummary x xs).
Proof.
  intros H. unfold addSummary. destruct (existsb _ xs) eqn:E; [exact H|].
  apply NoDup_app; [exact H | repeat constructor; intros [] |].
  intros y Hy [-> | []].
  assert (existsb (JsString.eqb y) xs = true); [|congruence].
  apply existsb_exists. exists y. split; [exact Hy | apply eqb_refl].
Qed.


(** The set of emitted summaries holds no text twice, and a note that is
    returned is the generated text itself, new to the set and recorded in it
    trimmed; the refusal marker never comes back as a note. *)
Theorem summaries_stay_distinct (answer : option JsString.t) (h : Hook) :
  let h' := fst (generateTopicalNote_resume answer h) in
  let note := snd (generateTopicalNote_resume answer h) in
  (NoDup (processedSummaries h) -> NoDup (processedSummaries h')) /\
  (note <> [] ->
     answer = Some note /\
     includes noNoteworthyContent note = false /\
     ~ In (trim note) (processedSummaries h) /\
     processedSummaries h' = processedSummaries h ++ [trim note]).
Proof.
  cbv zeta. unfold generateTopicalNote_resume.
  destruct answer as [s|]; [|split; [auto | intros N; now elim N]].
  destruct (includes noNoteworthyContent s) eqn:I;
    [split; [auto | intros N; now elim N]|].
  destruct (existsb _ (processedSummaries h)) eqn:E;
    [split; [auto | intros N; now elim N]|].
  cbn [fst snd].
  change (processedSummaries (set_processedSummaries ?x h)) with x.
  assert (Hn : ~ In (trim s) (processedSummaries h)).
  { intros Hin.
    assert (existsb
              (fun existingSummary =>
                 Qlt_bool duplicateSimilarity
                   (calculateSimpleStringSimilarity (trim s) existingSummary))
              (processedSummaries h) = true); [|congruence].
    apply existsb_exists. exists (trim s). split; [exact Hin|].
    now rewrite simple_similarity_self. }
  split.
  - apply addSummary_NoDup.
  - intros _. repeat split; try assumption.
    unfold addSummary.
    destruct (existsb (JsString.eqb (trim s)) (processedSummaries h)) eqn:X;
      [|reflexivity].
    apply existsb_exists in X as [y [Hy Ey]]. apply eqb_eq in Ey. now subst y.
Qed.

Lemma summaries_stay_distinct_witness :
  NoDup (processedSummaries
           (fst (generateTopicalNote_resume (Some (str "Budget is due."))
                                            initial))).
Proof.
  apply (proj1 (summaries_stay_distinct (Some (str "Budget is due.")) initial)).
  constructor.
Defined.

Lemma noteworthy_above_threshold (text : JsString.t) :
  isNoteworthy (analyzeContentQuality text) = true ->
  (threshold <= score (analyzeContentQuality text))%Q.
Proof.
  unfold analyzeContentQuality, analyzeWith.
  destruct (JsString.eqb _ _); [discriminate|].
  destruct (_ <? 3); [discriminate|].
  cbn [isNoteworthy score]. apply Qle_bool_iff.
Qed.

(** The override of [generateTopicalNote]: a text that is not blank and has
    fewer than 3 words, scored 0.1 as too short, is sent to the note
    generation all the same, as is every text the scorer finds noteworthy;
    a text that is not sent was not noteworthy and counts as filtered. *)
Theorem short_text_is_still_generated (text : JsString.t) (h : Hook) :
  trim text <> [] ->
  let '(h', calls, awaited) := generateTopicalNote_begin text h in
  (length (splitWs (trim (toLowerCase text))) < 3 -> awaited = true) /\
  (isNoteworthy (analyzeContentQuality text) = true -> awaited = true) /\
  (awaited = true -> calls = [AnalyzeContent text; GenerateText text] /\
                     filteredContentCount h' = filteredContentCount h) /\
  (awaited = false -> calls = [AnalyzeContent text] /\
                      filteredContentCount h' = S (filteredContentCount h) /\
                      isNoteworthy (analyzeContentQuality text) = false).
Proof.
  intros Hne.
  assert (E : isEmpty text || isEmpty (trim text) = false).
  { apply orb_false_iff. split; apply isEmpty_false; [|exact Hne].
    intros ->. now apply Hne. }
  unfold generateTopicalNote_begin. rewrite E. cbv zeta.
  assert (S : length (splitWs (trim (toLowerCase text))) < 3 ->
              score (analyzeContentQuality text) = (1 # 10)%Q).
  { intros W. unfold analyzeContentQuality, analyzeWith. rewrite eqb_nil.
    destruct (trim text); [congruence|].
    apply Nat.ltb_lt in W. now rewrite W. }
  destruct (isNoteworthy (analyzeContentQuality text)) eqn:N; cbn [negb andb].
  - rewrite N. cbn [negb]. repeat split; discriminate.
  - destruct (Qle_bool overrideScore (score (analyzeContentQuality text))) eqn:O;
      cbn [isNoteworthy negb].
    + repeat split; discriminate.
    + rewrite N. cbn [negb]. repeat split; try discriminate.
      intros W. rewrite (S W) in O. discriminate.
Qed.

Lemma short_text_is_still_generated_witness :
  snd (generateTopicalNote_begin (str "hi there") initial) = true.
Proof.
  pose proof (@short_text_is_still_generated (str "hi there") initial) as G.
  destruct (generateTopicalNote_begin (str "hi there") initial)
    as [[h' calls] awaited].
  destruct (G ltac:(discriminate)) as [G1 _].
  apply G1. vm_compute. lia.
Defined.




Lemma step_empty_result (now : Z) (h : Hook) :
  let r := step h (Transcribed (TranscribeReturns []) now) in
  scored (snd r) = [] /\
  accumulatedTranscription (fst r) = accumulatedTranscription h /\
  transcriptionErrorCount (fst r) = 1.
Proof.
  cbv zeta. cbn [step]. unfold processAudioChunks_resume.
  rewrite empty_transcription_counts_one.
  set (h1 := set_isProcessing false (set_transcriptionErrorCount 1 h)).
  pose proof (restartRecording_keeps h1) as [B [C _]].
  pose proof (restartRecording_scored h1) as S.
  destruct (restartRecording h1) as [h2 calls2]. cbn [fst snd app] in *.
  repeat split; assumption.
Qed.

(** Empty transcription results alone never bring the fallback phrase: after
    any number of them in a row the buffer is as it was, nothing went to the
    scorer, and the error counter stands at 1, below the threshold of 3. *)
Theorem empty_results_never_reach_threshold (nows : list Z) (h : Hook) :
  let r := runEvents h (map (Transcribed (TranscribeReturns [])) nows) in
  scored (snd r) = [] /\
  accumulatedTranscription (fst r) = accumulatedTranscription h /\
  (nows <> [] -> transcriptionErrorCount (fst r) = 1).
Proof.
  cbv zeta. revert h. induction nows as [|now nows IH]; intros h.
  - repeat split. intros N. now elim N.
  - cbn [map runEvents].
    pose proof (step_empty_result now h) as [S [B C]].
    destruct (step h (Transcribed (TranscribeReturns []) now)) as [h1 calls1].
    cbn [fst snd] in *.
    specialize (IH h1). destruct IH as [S' [B' C']].
    destruct (runEvents h1 (map (Transcribed (TranscribeReturns [])) nows))
      as [h2 calls2] eqn:R.
    cbn [fst snd] in *. repeat split.
    + now rewrite scored_app, S, S'.
    + congruence.
    + intros _. destruct nows as [|n nows].
      * cbn in R. injection R as <- _. exact C.
      * apply C'. discriminate.
Qed.

Lemma empty_results_never_reach_threshold_witness :
  transcriptionErrorCount
    (fst (runEvents Samples.twoErrors
            (map (Transcribed (TranscribeReturns [])) [100%Z; 200%Z; 300%Z])))
  = 1.
Proof.
  apply (empty_results_never_reach_threshold [100%Z; 200%Z; 300%Z]
                                             Samples.twoErrors).
  discriminate.
Defined.

End HookMore.

(** ** The recorder's MIME type *)

Module MimeTypeFacts.

Import MimeType Hook HookFacts.

Lemma firstSupported_split (isTypeSupported : JsString.t -> bool)
                           (candidates : list JsString.t) :
  (exists c, In c candidates /\ (c = [] \/ isTypeSupported c = true)) ->
  let r := firstSupported isTypeSupported candidates in
  exists before after,
    candidates = before ++ r :: after /\
    Forall (fun type => type <> [] /\ isTypeSupported type = false) before /\
    (r = [] \/ isTypeSupported r = true).
Proof.
  cbv zeta. induction candidates as [|c cs IH]; intros [x [Hin Hx]];
    [destruct Hin|].
  cbn [firstSupported].
  destruct (isEmpty c || isTypeSupported c) eqn:E.
  - exists [], cs. repeat split; [constructor|].
    apply orb_true_iff in E as [E | E]; [left | now right].
    now destruct c.
  - apply orb_false_iff in E as [E1 E2]. apply isEmpty_false in E1.
    destruct IH as [before [after [Hc [Hb Hr]]]].
    + destruct Hin as [<- | Hin]; [|now exists x].
      destruct Hx; congruence.
    + exists (c :: before), after. repeat split.
      * cbn [app]. now f_equal.
      * constructor; [now split | exact Hb].
      * exact Hr.
Qed.

(** [getSupportedMimeType] returns the first candidate of its list that the
    platform supports, all candidates before it being unsupported, and the
    empty string (the browser's default) when none is. *)
Theorem getSupportedMimeType_first_supported
        (isTypeSupported : JsString.t -> bool) :
  let r := getSupportedMimeType isTypeSupported in
  (exists before after,
     types = before ++ r :: after /\
     Forall (fun type => type <> [] /\ isTypeSupported type = false) before) /\
  (r <> [] -> isTypeSupported r = true) /\
  (r = [] -> forall type, In type types -> type <> [] ->
             isTypeSupported type = false).
Proof.
  cbv zeta. unfold getSupportedMimeType.
  destruct (firstSupported_split isTypeSupported types)
    as [before [after [Ht [Hb Hr]]]].
  { exists []. split; [|now left]. unfold types. cbn. tauto. }
  split; [now exists before, after|]. split.
  - intros Hne. destruct Hr; congruence.
  - clear Ht Hb Hr before after. intros E type Hin Hne. revert E.
    cbv [types firstSupported str list_ascii_of_string isEmpty orb In] in *.
    destruct Hin as [<- | [<- | [<- | [<- | [<- | [<- | []]]]]]];
      try congruence;
      repeat match goal with
             | |- context [if isTypeSupported ?t then _ else _] =>
                 destruct (isTypeSupported t) eqn:?
             end;
      intros E; try discriminate E; congruence.
Qed.

Lemma getSupportedMimeType_first_supported_witness :
  Samples.isTypeSupported_ogg
    (getSupportedMimeType Samples.isTypeSupported_ogg) = true.
Proof.
  apply (getSupportedMimeType_first_supported Samples.isTypeSupported_ogg).
  discriminate.
Defined.

End MimeTypeFacts.

(** ** The canvas *)

Module CanvasFacts.

Import Canvas HookFacts SimilarityFacts.

Lemma has_In (xs : list JsString.t) (x : JsString.t) :
  has xs x = true <-> In x xs.
Proof.
  unfold has. rewrite existsb_exists. split.
  - intros [y [Hy E]]. apply eqb_eq in E. now subst.
  - intros H. exists x. split; [exact H | apply eqb_refl].
Qed.

Lemma accepts_true (summary : JsString.t) (now : Z) (b : Board) :
  accepts summary now b = true <->
  summary <> [] /\ trim summary <> [] /\ summary <> lastSummary b /\
  has (processedContents b) (trim summary) = false /\
  isSimilarToExisting summary (map content (notes b)) similarityThreshold = false /\
  (minTimeBetweenNotes <= now - lastNoteTime b)%Z.
Proof.
  unfold accepts.
  rewrite !andb_true_iff, !negb_true_iff, !isEmpty_false, eqb_neq, Z.ltb_ge.
  tauto.
Qed.

(** A summary becomes a note only if it is not blank, differs from the last
    one, is not in the set of processed contents, comes at least 1500 ms
    after the last note, and is less than 0.8 similar to the content of every
    note on the canvas; no note then has the same content up to case. *)
Lemma accepted_summary_is_new (summary : JsString.t) (now : Z) (b : Board) :
  accepts summary now b = true ->
  trim summary <> [] /\
  summary <> lastSummary b /\
  ~ In (trim summary) (processedContents b) /\
  (minTimeBetweenNotes <= now - lastNoteTime b)%Z /\
  (forall note, In note (notes b) ->
     ~ (similarityThreshold <= calculateStringSimilarity summary (content note))%Q /\
     toLowerCase (content note) <> toLowerCase summary).
Proof.
  intros H. apply accepts_true in H as [_ [Hb [Hl [Hp [Hs Ht]]]]].
  repeat split; try assumption.
  - intros Hin. apply has_In in Hin. congruence.
  - intros Hle. apply Qle_bool_iff in Hle.
    unfold isSimilarToExisting in Hs. rewrite eqb_nil in Hs.
    destruct (trim summary); [congruence|].
    assert (existsb
              (fun existingText =>
                 Qle_bool similarityThreshold
                   (calculateStringSimilarity summary existingText))
              (map content (notes b)) = true); [|congruence].
    apply existsb_exists. exists (content note). split; [|exact Hle].
    now apply in_map.
  - intros E.
    unfold isSimilarToExisting in Hs. rewrite eqb_nil in Hs.
    destruct (trim summary); [congruence|].
    assert (existsb
              (fun existingText =>
                 Qle_bool similarityThreshold
                   (calculateStringSimilarity summary existingText))
              (map content (notes b)) = true); [|congruence].
    apply existsb_exists. exists (content note). split; [now apply in_map|].
    apply Qle_bool_iff.
    rewrite (calculateStringSimilarity_fold summary (content note))
      by congruence.
    discriminate.
Qed.

Lemma accepted_summary_is_new_witness :
  (minTimeBetweenNotes <= 2000 - lastNoteTime emptyBoard)%Z.
Proof.
  apply (@accepted_summary_is_new (str "Budget is due.") 2000%Z emptyBoard).
  reflexivity.
Defined.

(** [onSummary] either leaves the board as it is or puts one note last, made
    of the summary and the transcription.  It creates the note only for a
    summary that is not blank, differs from the last one, is not in the set
    of processed contents, comes at least 1500 ms after the last note, and
    is less than 0.8 similar to the content of every note of the board, none
    of which has the same content up to case; the clock of the last note is
    then the clock reading given. *)
Theorem created_note_is_new
        (summary transcription : JsString.t) (now : Z)
        (newId : JsString.t) (at_ : Q * Q) (selectedColor date : JsString.t)
        (b : Board) :
  let b' := onSummary summary transcription now newId at_ selectedColor date b in
  (b' = b \/
   notes b' =
   notes b ++ [MkNote newId summary transcription at_ selectedColor date]) /\
  (notes b' <> notes b ->
     trim summary <> [] /\
     summary <> lastSummary b /\
     ~ In (trim summary) (processedContents b) /\
     (minTimeBetweenNotes <= now - lastNoteTime b)%Z /\
     lastNoteTime b' = now /\
     (forall note, In note (notes b) ->
        ~ (similarityThreshold <=
           calculateStringSimilarity summary (content note))%Q /\
        toLowerCase (content note) <> toLowerCase summary)).
Proof.
  cbv zeta. unfold onSummary.
  destruct (accepts summary now b) eqn:A.
  - cbn [notes lastNoteTime]. split; [now right|]. intros _.
    destruct (accepted_summary_is_new summary now b A)
      as [H1 [H2 [H3 [H4 H5]]]].
    repeat split; try assumption; now apply H5.
  - split; [now left|]. intros N. now elim N.
Qed.

Lemma created_note_is_new_witness :
  lastNoteTime (onSummary (str "Budget is due.") (str "the budget is due") 2000
                          (str "n1") (0%Q, 0%Q) (str "bg-yellow-100")
                          (str "today") emptyBoard) = 2000%Z.
Proof.
  apply (@created_note_is_new (str "Budget is due.") (str "the budget is due")
           2000%Z (str "n1") (0%Q, 0%Q) (str "bg-yellow-100") (str "today")
           emptyBoard).
  discriminate.
Defined.

Lemma add_has (x : JsString.t) (xs : list JsString.t) : has (add x xs) x = true.
Proof.
  unfold add. destruct (has xs x) eqn:E; [exact E|].
  unfold has. rewrite existsb_app. cbn. rewrite eqb_refl. apply orb_true_r.
Qed.

(** A summary that became a note is not accepted again, at any later time
    and with any white space around it, as long as the set of processed
    contents keeps it. *)
Theorem summary_is_accepted_once
        (summary transcription : JsString.t) (now : Z)
        (newId : JsString.t) (at_ : Q * Q) (selectedColor date : JsString.t)
        (b : Board) (again : JsString.t) (later : Z) :
  accepts summary now b = true ->
  trim again = trim summary ->
  accepts again later
          (onSummary summary transcription now newId at_ selectedColor date b)
  = false.
Proof.
  intros H E. unfold onSummary. rewrite H. unfold accepts.
  cbn [processedContents]. rewrite E, add_has. cbn [negb].
  now rewrite !andb_false_r.
Qed.

Lemma summary_is_accepted_once_witness :
  accepts (str " Budget is due. ") 9000
          (onSummary (str "Budget is due.") (str "the budget is due") 2000
                     (str "n1") (0%Q, 0%Q) (str "bg-yellow-100") (str "today")
                     emptyBoard)
  = false.
Proof.
  apply summary_is_accepted_once; reflexivity.
Defined.

(** [onSummary] changes nothing when it refuses the summary, and otherwise
    keeps every note and puts one note last, with the summary as content and
    the transcription as raw text, at the clock reading given. *)
Lemma onSummary_appends_one_note
        (summary transcription : JsString.t) (now : Z)
        (newId : JsString.t) (at_ : Q * Q) (selectedColor date : JsString.t)
        (b : Board) :
  let b' := onSummary summary transcription now newId at_ selectedColor date b in
  (accepts summary now b = false -> b' = b) /\
  (accepts summary now b = true ->
     notes b' =
     notes b ++ [MkNote newId summary transcription at_ selectedColor date] /\
     lastNoteTime b' = now /\
     (minTimeBetweenNotes <= lastNoteTime b' - lastNoteTime b)%Z /\
     In (trim summary) (processedContents b')).
Proof.
  cbv zeta. unfold onSummary. split; intros H; rewrite H; [reflexivity|].
  cbn [notes lastNoteTime processedContents]. repeat split.
  - now apply accepts_true in H as [_ [_ [_ [_ [_ Ht]]]]].
  - apply has_In, add_has.
Qed.

Lemma onSummary_appends_one_note_witness :
  length (notes (onSummary (str "Budget is due.") (str "the budget is due") 2000
                           (str "n1") (0%Q, 0%Q) (str "bg-yellow-100")
                           (str "today") emptyBoard)) = 1.
Proof.
  rewrite (proj1 (proj2 (@onSummary_appends_one_note
             (str "Budget is due.") (str "the budget is due") 2000%Z
             (str "n1") (0%Q, 0%Q) (str "bg-yellow-100") (str "today")
             emptyBoard) eq_refl)).
  reflexivity.
Defined.

Lemma delete_not_has (x : JsString.t) (xs : list JsString.t) :
  has (delete x xs) x = false.
Proof.
  unfold has, delete. induction xs as [|y xs IH]; [reflexivity|].
  cbn [filter]. destruct (JsString.eqb x y) eqn:E; cbn [negb]; [exact IH|].
  cbn [existsb]. now rewrite E, IH.
Qed.

(** [deleteNote] removes exactly the notes with the id, keeps the others in
    their order, drops the selection if it was on the id, and forgets the
    trimmed content of the first such note in the set of processed contents;
    with no such note the set stays. *)
Theorem deleteNote_removes_and_forgets (noteId : JsString.t) (b : Board) :
  let b' := deleteNote noteId b in
  (forall note, In note (notes b') <-> In note (notes b) /\ id note <> noteId) /\
  notes b' = filter (fun note => negb (JsString.eqb (id note) noteId)) (notes b) /\
  selectedNote b' <> Some noteId /\
  (forall note,
     find (fun note => JsString.eqb (id note) noteId) (notes b) = Some note ->
     has (processedContents b') (trim (content note)) = false) /\
  ((forall note, In note (notes b) -> id note <> noteId) ->
     processedContents b' = processedContents b /\ notes b' = notes b).
Proof.
  cbv zeta. unfold deleteNote. cbv zeta. cbn [notes selectedNote processedContents].
  split; [|split; [reflexivity|split; [|split]]].
  - intros note. rewrite filter_In, negb_true_iff, eqb_neq. tauto.
  - destruct (selectedNote b) as [prev|]; [|discriminate].
    destruct (JsString.eqb prev noteId) eqn:E; [discriminate|].
    apply eqb_neq in E. congruence.
  - intros note F. rewrite F. apply delete_not_has.
  - intros A. split.
    + destruct (find _ (notes b)) as [n|] eqn:F; [|reflexivity].
      apply find_some in F as [Hin E]. apply eqb_eq in E.
      now elim (A n Hin).
    + apply forallb_filter_id, forallb_forall.
      intros n Hin. apply negb_true_iff, eqb_neq. now apply A.
Qed.

Lemma deleteNote_removes_and_forgets_witness :
  let b := onSummary (str "Budget is due.") (str "the budget is due") 2000
                     (str "n1") (0%Q, 0%Q) (str "bg-yellow-100") (str "today")
                     emptyBoard in
  has (processedContents (deleteNote (str "n1") b)) (str "Budget is due.")
  = false.
Proof.
  cbv zeta.
  apply (proj1 (proj2 (proj2 (proj2 (deleteNote_removes_and_forgets (str "n1") _))))
           (MkNote (str "n1") (str "Budget is due.") (str "the budget is due")
                   (0%Q, 0%Q) (str "bg-yellow-100") (str "today"))).
  reflexivity.
Defined.

(** Editing the content of a note keeps the ids, their order and every note
    with another id; every note with the id has the new content and its
    other fields as before. *)
Theorem updateNoteContent_touches_one_id (noteId newContent : JsString.t)
                                         (b : Board) :
  let b' := updateNoteContent noteId newContent b in
  map id (notes b') = map id (notes b) /\
  map position (notes b') = map position (notes b) /\
  map color (notes b') = map color (notes b) /\
  map rawTranscription (notes b') = map rawTranscription (notes b) /\
  processedContents b' = processedContents b /\
  (forall note, In note (notes b) -> id note <> noteId -> In note (notes b')) /\
  (forall note, In note (notes b') -> id note = noteId ->
                content note = newContent).
Proof.
  cbv zeta. unfold updateNoteContent, withNotes. cbn [notes processedContents].
  repeat split;
    try (rewrite map_map; apply map_ext; intros n;
         now destruct (JsString.eqb (id n) noteId)).
  - intros n Hin Hne. apply in_map_iff. exists n. split; [|exact Hin].
    apply eqb_neq in Hne. now rewrite Hne.
  - intros n Hin E. apply in_map_iff in Hin as [m [Hm _]].
    destruct (JsString.eqb (id m) noteId) eqn:X; subst n; [reflexivity|].
    apply eqb_neq in X. congruence.
Qed.

Lemma updateNoteContent_touches_one_id_witness :
  Forall (fun note => content note = str "milk")
         (notes (updateNoteContent (str "n1") (str "milk")
                   (addNote (0%Q, 0%Q) (str "n1") (str "bg-yellow-100")
                            (str "today") emptyBoard))).
Proof.
  apply Forall_forall. intros note Hin.
  pose proof (updateNoteContent_touches_one_id (str "n1") (str "milk")
                (addNote (0%Q, 0%Q) (str "n1") (str "bg-yellow-100")
                         (str "today") emptyBoard)) as H.
  cbv zeta in H. destruct H as [_ [_ [_ [_ [_ [_ H]]]]]].
  apply (H note Hin). destruct Hin as [<- | []]. reflexivity.
Defined.

Local Open Scope Q_scope.

Lemma zoom_keeps_range (z : Q) (a : ZoomAction) :
  inZoomRange z -> inZoomRange (zoom z a).
Proof.
  unfold inZoomRange. intros [L U]. destruct a; cbn [zoom].
  - unfold zoomIn. split.
    + apply Q.min_glb; [|discriminate].
      apply Qle_trans with z; [exact L|].
      rewrite <- (Qplus_0_r z) at 1. apply Qplus_le_r. discriminate.
    + apply Q.le_min_r.
  - unfold zoomOut. split.
    + apply Q.le_max_r.
    + apply Q.max_lub; [|discriminate].
      apply Qle_trans with z; [|exact U].
      unfold Qminus. rewrite <- (Qplus_0_r z) at 2. apply Qplus_le_r.
      discriminate.
  - split; discriminate.
  - unfold handleWheel. destruct modifier; [|now split]. split.
    + apply Q.le_max_l.
    + apply Q.max_lub; [discriminate | apply Q.le_min_l].
Qed.

(** The zoom level stays between 50% and 200% under every sequence of zoom
    buttons, shortcuts and wheel events, starting from 100% or from any level
    in that range. *)
Theorem zoom_stays_in_range (actions : list ZoomAction) (z : Q) :
  inZoomRange z -> inZoomRange (fold_left zoom actions z).
Proof.
  revert z. induction actions as [|a actions IH]; intros z H; [exact H|].
  cbn [fold_left]. apply IH. now apply zoom_keeps_range.
Qed.

Lemma zoom_stays_in_range_witness :
  inZoomRange (fold_left zoom [ZoomIn; ZoomIn; Wheel true false; ZoomOut] 1).
Proof.
  apply zoom_stays_in_range. split; discriminate.
Defined.

End CanvasFacts.

(** ** The fallback phrase during an outage *)

Module OutageFacts.

Import Hook HookFacts HookMore.









End OutageFacts.
